(** * Contacts API: authentication service and contacts repository

    A shallow embedding of [src/services/auth.py], [src/repository/users.py]
    and the handlers of [src/routes/users.py].

    Python values are modelled as follows.
    - [str] is [string]; [int] is [Z].
    - A [dict] with string keys is a [gmap string _]; [d[k]] on a missing key
      raises [KeyError].
    - [datetime] and [timedelta] are integer counts of microseconds ([Z]),
      which is the resolution Python keeps for both, inside the ranges Python
      gives them; arithmetic that leaves the range raises [OverflowError].
    - Exceptions are values of [exn]; a computation that may raise returns a
      [result]; code that also talks to Redis and to the database session
      lives in the state monad [M] over [World].
    - Compact JWTs and pickles are modelled symbolically: by the term that
      produced them, next to a constructor for every other string.
    - What the embedding takes from CPython and the libraries without
      modelling it (parsing of integer literals, binary floating point, the
      HMAC and bcrypt computations) is the class [Libraries]: definitions
      and theorems are stated over any instance of it. *)

From stdpp Require Import gmap strings list fin_maps pretty.
From Stdlib Require Import ZArith.

Local Open Scope string_scope.
Local Open Scope list_scope.
Local Open Scope Z_scope.

(** ** Exceptions and results *)

(** The three exception classes of [jose.exceptions] that [except JWTError]
    catches: [JWTError] itself and its subclasses. *)
Inductive jwt_error_kind :=
  | JWTError_base
  | ExpiredSignatureError
  | JWTClaimsError.

(** [OtherError] stands for every exception class not named here. *)
Inductive exn :=
  | JWTError (k : jwt_error_kind)
  | JWSError
  | JWKError
  | TypeError
  | ValueError
  | OverflowError
  | HTTPException (status_code : Z) (detail : string)
                  (headers : list (string * string))
  | KeyError (key : string)
  | UnknownHashError
  | UnpicklingError
  | OtherError (class : string).

Inductive result (A : Type) :=
  | Return (a : A)
  | Raise (e : exn).
Arguments Return {A} a.
Arguments Raise {A} e.

Definition rbind {A B} (r : result A) (k : A -> result B) : result B :=
  match r with
  | Return a => k a
  | Raise e => Raise e
  end.

Notation "x <-? r ; k" := (rbind r (fun x => k))
  (at level 100, r at next level, right associativity).

(** [try: body / except JWTError: handler]. Any other exception passes
    through, also one raised by the body itself. *)
Definition try_except_JWTError {A} (body : result A)
    (handler : jwt_error_kind -> result A) : result A :=
  match body with
  | Raise (JWTError k) => handler k
  | other => other
  end.

(** [fastapi.status] *)
Definition HTTP_401_UNAUTHORIZED : Z := 401.
Definition HTTP_404_NOT_FOUND : Z := 404.
Definition HTTP_422_UNPROCESSABLE_ENTITY : Z := 422.

(** ** Dates and times *)

Definition datetime := Z.
Definition timedelta := Z.

(** The literal durations of the service. *)
Definition timedelta_seconds (s : Z) : timedelta := s * 1000000.
Definition timedelta_minutes (m : Z) : timedelta := timedelta_seconds (m * 60).
Definition timedelta_days (d : Z) : timedelta := timedelta_seconds (d * 86400).

(** [datetime.min] is 0001-01-01 00:00:00 and [datetime.max] is 9999-12-31
    23:59:59.999999, as microseconds from the epoch. *)
Definition datetime_min : datetime := -62135596800000000.
Definition datetime_max : datetime := 253402300799999999.

(** [timedelta.min] is -999999999 days and [timedelta.max] is one
    microsecond short of 1000000000 days. *)
Definition timedelta_min : timedelta := -999999999 * 86400 * 1000000.
Definition timedelta_max : timedelta := 1000000000 * 86400 * 1000000 - 1.

(** [timedelta(seconds=s)] for an [int] *)
Definition timedelta_of_int (s : Z) : result timedelta :=
  if (timedelta_min <=? s * 1000000) && (s * 1000000 <=? timedelta_max)
  then Return (s * 1000000)
  else Raise OverflowError.

(** [d + td] *)
Definition datetime_add (d : datetime) (td : timedelta) : result datetime :=
  if (datetime_min <=? d + td) && (d + td <=? datetime_max)
  then Return (d + td)
  else Raise OverflowError.

(** [calendar.timegm(d.utctimetuple())]: whole seconds since the epoch, the
    microseconds dropped. *)
Definition timegm (d : datetime) : Z := d / 1000000.

(** ** Claim values *)

(** What a decoded token carries: [null], booleans, integers and strings;
    [JOther] stands for every other JSON value (a number with a fraction or
    an exponent, an array, an object), given by its text in the payload. *)
Inductive json :=
  | JNull
  | JBool (b : bool)
  | JInt (z : Z)
  | JStr (s : string)
  | JOther (text : string).

(** What the dictionaries handed to [jwt.encode] carry: JSON values, and the
    [datetime] objects the service stores under [iat] and [exp]. *)
Inductive pyval :=
  | PJson (j : json)
  | PDatetime (d : datetime).

Global Instance json_eq_dec : EqDecision json.
Proof. solve_decision. Defined.

Global Instance pyval_eq_dec : EqDecision pyval.
Proof. solve_decision. Defined.

(** [d[k]] *)
Definition getitem {V} (d : gmap string V) (k : string) : result V :=
  match d !! k with
  | Some v => Return v
  | None => Raise (KeyError k)
  end.

(** [d.update(other)] for the literal dictionaries of the service, given as
    the list of their items in source order. *)
Definition update {V} (d : gmap string V) (items : list (string * V))
    : gmap string V :=
  foldl (fun acc kv => <[kv.1 := kv.2]> acc) d items.

(** ** passlib: how a hash is recognised *)

Module Passlib.

(** The prefixes by which the bcrypt handler recognises its hashes. *)
Definition bcrypt_idents : list string :=
  ["$2$"; "$2a$"; "$2x$"; "$2y$"; "$2b$"].

(** [CryptContext(schemes=["bcrypt"]).identify(h) is not None] *)
Definition identify (h : string) : bool :=
  existsb (fun ident => String.prefix ident h) bcrypt_idents.

End Passlib.

(** ** What is taken from CPython and the libraries *)

Class Libraries := {
  (** [int(s)] for a [str]; [None] where it raises [ValueError]. *)
  int_of_str : string -> option Z;
  (** [int(v)] and [str(v)] for the Python value a [JOther] is parsed to:
      [int] truncates a finite float and raises on everything else. *)
  int_of_other : string -> result Z;
  int_of_other_raises : forall text e,
    int_of_other text = Raise e ->
    e = TypeError \/ e = ValueError \/ e = OverflowError;
  str_of_other : string -> string;
  (** Python floats, with their truth value and with what
      [timedelta(seconds=x)] makes of one: a number of microseconds, or the
      exception it raises. *)
  pyfloat : Type;
  float_truth : pyfloat -> bool;
  float_timedelta : pyfloat -> result timedelta;
  (** [hmac_same_key alg signer key]: a signature made under [alg] with the
      key [signer] verifies under the key [key]. *)
  hmac_same_key : string -> string -> string -> bool;
  hmac_same_key_refl : forall alg key, hmac_same_key alg key key = true;
  (** [pwd_context.hash] (the first argument stands for the random salt)
      and [pwd_context.verify]. *)
  pwd_hash : string -> string -> result string;
  pwd_verify : string -> string -> result bool;
  pwd_verify_unidentified : forall secret h,
    Passlib.identify h = false -> pwd_verify secret h = Raise UnknownHashError;
  pwd_verify_own_hash : forall salt secret h,
    pwd_hash salt secret = Return h -> pwd_verify secret h = Return true
}.

(** [str(v)], as used by an f-string. *)
Definition py_str `{Libraries} (v : json) : string :=
  match v with
  | JNull => "None"
  | JBool true => "True"
  | JBool false => "False"
  | JInt z => pretty z
  | JStr s => s
  | JOther text => str_of_other text
  end.

(** A Python number, as [expires_delta] may be one. *)
Inductive number `{Libraries} :=
  | NInt (z : Z)
  | NFloat (x : pyfloat).

(** Python's truth value of an [Optional] number: [None] and zero are
    false. *)
Definition truthy `{Libraries} (x : option number) : bool :=
  match x with
  | Some (NInt z) => negb (z =? 0)
  | Some (NFloat x) => float_truth x
  | None => false
  end.

(** [timedelta(seconds=x)] *)
Definition timedelta_of_number `{Libraries} (x : number) : result timedelta :=
  match x with
  | NInt z => timedelta_of_int z
  | NFloat x => float_timedelta x
  end.

(** ** python-jose *)

Module Jose.

(** A compact JWS is represented by its header algorithm, the key its
    signature was computed with and its claims; [Opaque] stands for every
    string that is not a well-formed compact JWS over a JSON object. *)
Inductive token :=
  | Compact (alg : string) (key : string) (claims : gmap string json)
  | Opaque (s : string).

(** The algorithms usable with a shared secret. *)
Definition hmac_algorithms : list string := ["HS256"; "HS384"; "HS512"].

Definition supported (alg : string) : bool :=
  bool_decide (alg ∈ hmac_algorithms).

Definition time_claims : list string := ["exp"; "iat"; "nbf"].

(** [jwt.encode] replaces a [datetime] under [exp], [iat] or [nbf] by its
    [timegm]; a [datetime] anywhere else is not serialisable. *)
Definition to_json (k : string) (v : pyval) : option json :=
  match v with
  | PJson j => Some j
  | PDatetime d =>
      if bool_decide (k ∈ time_claims) then Some (JInt (timegm d)) else None
  end.

Definition encode (claims : gmap string pyval) (key : string)
    (algorithm : string) : result token :=
  let converted := map_imap to_json claims in
  if negb (size converted =? size claims)%nat then Raise TypeError
  else if supported algorithm then Return (Compact algorithm key converted)
  else Raise JWSError.

(** The claims a well-formed token carries, readable without the key. *)
Definition get_unverified_claims (t : token) : gmap string json :=
  match t with
  | Compact _ _ claims => claims
  | Opaque _ => ∅
  end.

Section validation.
Context `{Libraries}.

(** [int(v)] *)
Definition py_int (v : json) : result Z :=
  match v with
  | JNull => Raise TypeError
  | JBool b => Return (if b then 1 else 0)
  | JInt z => Return z
  | JStr s =>
      match int_of_str s with
      | Some z => Return z
      | None => Raise ValueError
      end
  | JOther text => int_of_other text
  end.

(** [try: int(v) / except ValueError: raise JWTClaimsError]: a [TypeError]
    or an [OverflowError] is not caught. *)
Definition claim_int (v : json) : result Z :=
  match py_int v with
  | Raise ValueError => Raise (JWTError JWTClaimsError)
  | other => other
  end.

Definition validate_iat (claims : gmap string json) : result unit :=
  match claims !! "iat" with
  | None => Return tt
  | Some v => _ <-? claim_int v; Return tt
  end.

Definition validate_nbf (claims : gmap string json) (now : datetime)
    : result unit :=
  match claims !! "nbf" with
  | None => Return tt
  | Some v =>
      nbf <-? claim_int v;
      if timegm now <? nbf then Raise (JWTError JWTClaimsError)
      else Return tt
  end.

(** [_validate_exp] with no leeway: a present [exp] must convert to an
    integer and must not lie before the current second. *)
Definition validate_exp (claims : gmap string json) (now : datetime)
    : result unit :=
  match claims !! "exp" with
  | None => Return tt
  | Some v =>
      exp <-? claim_int v;
      if exp <? timegm now then Raise (JWTError ExpiredSignatureError)
      else Return tt
  end.

(** [_validate_aud] with no expected audience: a string audience is not
    [None], and a value that is neither a string nor a list has the wrong
    format, so every present [aud] is refused. *)
Definition validate_aud (claims : gmap string json) : result unit :=
  match claims !! "aud" with
  | None => Return tt
  | Some _ => Raise (JWTError JWTClaimsError)
  end.

(** [_validate_sub] with no expected subject: a present [sub] must be a
    string. *)
Definition validate_sub (claims : gmap string json) : result unit :=
  match claims !! "sub" with
  | None => Return tt
  | Some (JStr _) => Return tt
  | Some _ => Raise (JWTError JWTClaimsError)
  end.

Definition validate_jti (claims : gmap string json) : result unit :=
  match claims !! "jti" with
  | None => Return tt
  | Some (JStr _) => Return tt
  | Some _ => Raise (JWTError JWTClaimsError)
  end.

(** [_validate_at_hash] with no access token to compare with. *)
Definition validate_at_hash (claims : gmap string json) : result unit :=
  match claims !! "at_hash" with
  | None => Return tt
  | Some _ => Raise (JWTError JWTClaimsError)
  end.

(** [_validate_claims] with the default options, in jose's order;
    [_validate_iss] does nothing when no issuer is expected. The validators
    of [nbf] and [exp] are given the same clock reading. *)
Definition validate_claims (claims : gmap string json) (now : datetime)
    : result unit :=
  _ <-? validate_iat claims;
  _ <-? validate_nbf claims now;
  _ <-? validate_exp claims now;
  _ <-? validate_aud claims;
  _ <-? validate_sub claims;
  _ <-? validate_jti claims;
  validate_at_hash claims.

(** [jwt.decode(token, key, algorithms=...)] read at clock value [now]:
    the header algorithm must be an allowed one, a key object is built for
    it ([JWKError] when jose has no shared-secret algorithm of that name),
    the signature is checked, then the registered claims. *)
Definition decode (t : token) (key : string) (algorithms : list string)
    (now : datetime) : result (gmap string json) :=
  match t with
  | Opaque _ => Raise (JWTError JWTError_base)
  | Compact alg signer claims =>
      if negb (bool_decide (alg ∈ algorithms))
      then Raise (JWTError JWTError_base)
      else if negb (supported alg) then Raise JWKError
      else if negb (hmac_same_key alg signer key)
      then Raise (JWTError JWTError_base)
      else
        _ <-? validate_claims claims now;
        Return claims
  end.

End validation.

End Jose.

(** ** Configuration ([src/conf/config.py]) *)

Record Settings := {
  secret_key : string;
  algorithm : string;
  redis_host : string;
  redis_port : Z
}.

(** The defaults of the [Settings] class; an environment file may override
    them, so the service below is stated over any [Auth] value. *)
Definition settings : Settings := {|
  secret_key := "secret_key";
  algorithm := "HS256";
  redis_host := "localhost";
  redis_port := 6379
|}.

(** ** Database models *)

Record date := { year : Z; month : Z; day : Z }.

Global Instance date_eq_dec : EqDecision date.
Proof. solve_decision. Defined.

(** Modelled from the spec: [database.models.UserAuth] is not among the
    sources. The fields are the attributes of the spec's Principal (email,
    password hash, confirmed flag, current refresh token, avatar URL) and the
    [username] the avatar route reads. *)
Module UserAuth.
Record t := mk {
  id : Z;
  username : string;
  email : string;
  password : string;
  avatar : option string;
  refresh_token : option string;
  confirmed : bool
}.
End UserAuth.

(** Modelled from the spec: [database.models.User] is not among the sources.
    The fields are those [create_users] passes to its constructor, next to
    the primary key [id] the queries filter on. *)
Module User.
Record t := mk {
  id : Z;
  first_name : string;
  last_name : string;
  birthday_date : date;
  email : string;
  phone_numbers : string;
  other_description : string
}.
End User.

Global Instance User_eq_dec : EqDecision User.t.
Proof. solve_decision. Defined.

(** Modelled from the spec: [schemas.UserSchema] is not among the sources.
    The fields are those [create_users] and [update_user] read from it. *)
Module UserSchema.
Record t := mk {
  first_name : string;
  last_name : string;
  birthday_date : date;
  email : string;
  phone_numbers : string;
  other_description : string
}.
End UserSchema.

(** The database session: the rows of the two tables in query order, and the
    trace of the e-mail lookups made through it. *)
Record Session := {
  users : list User.t;
  users_auth : list UserAuth.t;
  lookups : list json
}.

(** ** pickle and Redis *)

Module Pickle.

(** A byte string is either the pickle of a [UserAuth] row or anything
    else. *)
Inductive bytes :=
  | Pickled (u : UserAuth.t)
  | Raw (s : string).

Definition dumps (u : UserAuth.t) : bytes := Pickled u.

Definition loads (b : bytes) : result UserAuth.t :=
  match b with
  | Pickled u => Return u
  | Raw _ => Raise UnpicklingError
  end.

End Pickle.

Module Redis.

(** A stored key: its value and the time to live last set on it, in
    seconds ([None]: the key does not expire). Keys whose time has run out
    are absent from the store. *)
Record entry := { value : Pickle.bytes; ttl : option Z }.

Definition get (store : gmap string entry) (key : string)
    : option Pickle.bytes :=
  value <$> store !! key.

(** [SET key value] also drops a time to live the key had. *)
Definition set (store : gmap string entry) (key : string)
    (v : Pickle.bytes) : gmap string entry :=
  <[key := {| value := v; ttl := None |}]> store.

(** [EXPIRE key seconds] does nothing on a missing key. *)
Definition expire (store : gmap string entry) (key : string)
    (seconds : Z) : gmap string entry :=
  alter (fun e => {| value := value e; ttl := Some seconds |}) key store.

(** The store [seconds] later: a key is gone once the clock is past its
    expiry time, the others have that much less to live. *)
Definition elapse (seconds : Z) (store : gmap string entry)
    : gmap string entry :=
  omap
    (fun e =>
       match ttl e with
       | None => Some e
       | Some t =>
           if seconds <=? t
           then Some {| value := value e; ttl := Some (t - seconds) |}
           else None
       end)
    store.

End Redis.

(** ** The state monad of the request handlers *)

Record World := {
  redis : gmap string Redis.entry;
  db : Session
}.

Definition M (A : Type) : Type := World -> result A * World.

Definition mret {A} (a : A) : M A := fun w => (Return a, w).

Definition mraise {A} (e : exn) : M A := fun w => (Raise e, w).

Definition mbind {A B} (m : M A) (k : A -> M B) : M B :=
  fun w =>
    match m w with
    | (Return a, w') => k a w'
    | (Raise e, w') => (Raise e, w')
    end.

Definition lift {A} (r : result A) : M A := fun w => (r, w).

Notation "x <-! m ; k" := (mbind m (fun x => k))
  (at level 100, m at next level, right associativity).

Definition r_get (key : string) : M (option Pickle.bytes) :=
  fun w => (Return (Redis.get (redis w) key), w).

Definition r_set (key : string) (v : Pickle.bytes) : M unit :=
  fun w => (Return tt, {| redis := Redis.set (redis w) key v; db := db w |}).

Definition r_expire (key : string) (seconds : Z) : M unit :=
  fun w =>
    (Return tt, {| redis := Redis.expire (redis w) key seconds; db := db w |}).

(** ** The repository ([src/repository/users.py]) *)

(** [db.query(UserAuth).filter(UserAuth.email == email).first()]; [email] is
    the Python value handed in, which equals a column value only when it is
    that string. *)
Definition get_user_by_email (email : json) (db : Session)
    : option UserAuth.t * Session :=
  (head (filter (fun u => JStr (UserAuth.email u) = email) (users_auth db)),
   {| users := users db;
      users_auth := users_auth db;
      lookups := lookups db ++ [email] |}).

Definition get_user_by_email_M (email : json) : M (option UserAuth.t) :=
  fun w =>
    let '(u, db') := get_user_by_email email (db w) in
    (Return u, {| redis := redis w; db := db' |}).

(** [db.query(User).filter(User.id == user_id).first()] *)
Definition get_user (user_id : Z) (db : Session) : option User.t :=
  head (filter (fun u => User.id u = user_id) (users db)).

(** The loop of [get_birthday] over [db.query(User).all()]. *)
Definition get_birthday (today end_date : date) (db : Session)
    : list User.t :=
  foldl
    (fun result user =>
       if (month (User.birthday_date user) >=? month today)
          && (day (User.birthday_date user) >=? day today)
          && (month (User.birthday_date user) <=? month end_date)
          && (day (User.birthday_date user) <=? day end_date)
       then result ++ [user]
       else result)
    [] (users db).

(** The loop of [search_users]: three independent tests per row, each
    appending the row. *)
Definition search_users (first_name last_name email : option string)
    (db : Session) : list User.t :=
  foldl
    (fun result user =>
       let result :=
         match first_name with
         | Some first_name =>
             if bool_decide (User.first_name user = first_name)
             then result ++ [user] else result
         | None => result
         end in
       let result :=
         match last_name with
         | Some last_name =>
             if bool_decide (User.last_name user = last_name)
             then result ++ [user] else result
         | None => result
         end in
       match email with
       | Some email =>
           if bool_decide (User.email user = email)
           then result ++ [user] else result
       | None => result
       end)
    [] (users db).

(** [update_user]: the first row with the given id is changed in place and
    the session committed; the row (or [None]) is returned. *)
Definition update_user (user_id : Z) (body : UserSchema.t) (db : Session)
    : option User.t * Session :=
  match list_find (fun u => User.id u = user_id) (users db) with
  | Some (i, user) =>
      let user := {|
        User.id := User.id user;
        User.first_name := UserSchema.first_name body;
        User.last_name := UserSchema.last_name body;
        User.birthday_date := User.birthday_date user;
        User.email := UserSchema.email body;
        User.phone_numbers := UserSchema.phone_numbers body;
        User.other_description := UserSchema.other_description body
      |} in
      (Some user,
       {| users := <[i := user]> (users db);
          users_auth := users_auth db;
          lookups := lookups db |})
  | None => (None, db)
  end.

(** ** Further repository functions *)

(** [get_users]: [OFFSET skip LIMIT limit] over the table. The database
    refuses a negative offset or limit; the properties below take both
    non-negative. *)
Definition get_users (skip limit : Z) (db : Session) : list User.t :=
  take (Z.to_nat limit) (drop (Z.to_nat skip) (users db)).

(** [create_users]: [new_id] is the primary key the database assigns to the
    added row, read back by [db.refresh]. *)
Definition create_users (body : UserSchema.t) (new_id : Z) (db : Session)
    : User.t * Session :=
  let user_ := {|
    User.id := new_id;
    User.first_name := UserSchema.first_name body;
    User.last_name := UserSchema.last_name body;
    User.birthday_date := UserSchema.birthday_date body;
    User.email := UserSchema.email body;
    User.phone_numbers := UserSchema.phone_numbers body;
    User.other_description := UserSchema.other_description body
  |} in
  (user_,
   {| users := users db ++ [user_];
      users_auth := users_auth db;
      lookups := lookups db |}).

(** [remove_user]: the first row with the given id is deleted and
    returned. *)
Definition remove_user (user_id : Z) (db : Session)
    : option User.t * Session :=
  match list_find (fun u => User.id u = user_id) (users db) with
  | Some (i, user) =>
      (Some user,
       {| users := delete i (users db);
          users_auth := users_auth db;
          lookups := lookups db |})
  | None => (None, db)
  end.

(** The outcome of a repository function that sets an attribute on the
    result of a lookup: on [None] the assignment raises [AttributeError]. *)
Inductive attempt (A : Type) :=
  | Done (a : A)
  | AttributeError (attr : string).
Arguments Done {A} a.
Arguments AttributeError {A} attr.

(** [db.commit()] after an attribute of [user] was set: the new row value is
    written to the row carrying the primary key of [user]. *)
Definition commit_user_auth (change : UserAuth.t -> UserAuth.t)
    (user : UserAuth.t) (rows : list UserAuth.t) : list UserAuth.t :=
  (fun row =>
     if bool_decide (UserAuth.id row = UserAuth.id user)
     then change row else row) <$> rows.

Definition set_avatar (url : string) (user : UserAuth.t) : UserAuth.t := {|
  UserAuth.id := UserAuth.id user;
  UserAuth.username := UserAuth.username user;
  UserAuth.email := UserAuth.email user;
  UserAuth.password := UserAuth.password user;
  UserAuth.avatar := Some url;
  UserAuth.refresh_token := UserAuth.refresh_token user;
  UserAuth.confirmed := UserAuth.confirmed user
|}.

Definition set_confirmed (user : UserAuth.t) : UserAuth.t := {|
  UserAuth.id := UserAuth.id user;
  UserAuth.username := UserAuth.username user;
  UserAuth.email := UserAuth.email user;
  UserAuth.password := UserAuth.password user;
  UserAuth.avatar := UserAuth.avatar user;
  UserAuth.refresh_token := UserAuth.refresh_token user;
  UserAuth.confirmed := true
|}.

Definition update_avatar (email : json) (url : string) (db : Session)
    : attempt UserAuth.t * Session :=
  let '(user, db) := get_user_by_email email db in
  match user with
  | None => (AttributeError "avatar", db)
  | Some user =>
      (Done (set_avatar url user),
       {| users := users db;
          users_auth := commit_user_auth (set_avatar url) user (users_auth db);
          lookups := lookups db |})
  end.

Definition confirmed_email (email : json) (db : Session)
    : attempt unit * Session :=
  let '(user, db) := get_user_by_email email db in
  match user with
  | None => (AttributeError "confirmed", db)
  | Some user =>
      (Done tt,
       {| users := users db;
          users_auth := commit_user_auth set_confirmed user (users_auth db);
          lookups := lookups db |})
  end.

(** ** Route handlers ([src/routes/users.py])

    The bodies of the handlers, run on the session once the framework has
    resolved their parameters. *)

Module routes.

Definition read_user (user_id : Z) (db : Session) : result User.t :=
  match get_user user_id db with
  | None => Raise (HTTPException HTTP_404_NOT_FOUND "User not found" [])
  | Some users => Return users
  end.

Definition update_user (body : UserSchema.t) (user_id : Z) (db : Session)
    : result User.t * Session :=
  let '(user, db) := update_user user_id body db in
  match user with
  | None => (Raise (HTTPException HTTP_404_NOT_FOUND "User not found" []), db)
  | Some user => (Return user, db)
  end.

Definition remove_user (user_id : Z) (db : Session)
    : result User.t * Session :=
  let '(user, db) := remove_user user_id db in
  match user with
  | None => (Raise (HTTPException HTTP_404_NOT_FOUND "User not found" []), db)
  | Some user => (Return user, db)
  end.

End routes.

(** ** The birthday route ([src/routes/users.py]) *)

Definition is_leap (y : Z) : bool :=
  (y mod 4 =? 0) && (negb (y mod 100 =? 0) || (y mod 400 =? 0)).

Definition days_in_month (y m : Z) : Z :=
  if m =? 2 then (if is_leap y then 29 else 28)
  else if bool_decide (m ∈ [4; 6; 9; 11]) then 30
  else 31.

Definition next_day (d : date) : date :=
  if day d <? days_in_month (year d) (month d)
  then {| year := year d; month := month d; day := day d + 1 |}
  else if month d <? 12
  then {| year := year d; month := month d + 1; day := 1 |}
  else {| year := year d + 1; month := 1; day := 1 |}.

(** [datetime.MAXYEAR] *)
Definition MAXYEAR : Z := 9999.

(** [d + timedelta(days=n)] for [n >= 0]: the day [n] days on, or
    [OverflowError] when that day lies after 9999-12-31. *)
Definition date_add_days (d : date) (n : nat) : result date :=
  let later := Nat.iter n next_day d in
  if year later <=? MAXYEAR then Return later else Raise OverflowError.

(** [read_birthdays], [today] being [date.today()]. The route raises a 404
    when [get_birthday] returns [None]; what it returns is always a list, so
    the list is handed on. *)
Definition read_birthdays (today : date) (db : Session)
    : result (list User.t) :=
  end_date <-? date_add_days today 7;
  let birthdays := get_birthday today end_date db in
  Return birthdays.

(** ** The authentication service ([src/services/auth.py]) *)

(** The class attributes of [Auth] that the methods read. The password
    context is [pwd_hash] and [pwd_verify] of [Libraries]; the Redis client
    [r] is the [redis] component of the [World]. *)
Record Auth := {
  SECRET_KEY : string;
  ALGORITHM : string
}.

Definition auth_service : Auth := {|
  SECRET_KEY := secret_key settings;
  ALGORITHM := algorithm settings
|}.

Definition credentials_exception : exn :=
  HTTPException HTTP_401_UNAUTHORIZED "Could not validate credentials"
    [("WWW-Authenticate", "Bearer")].

Section service.
Context `{Libraries}.



(** In the three issuing functions [now] is the clock reading that [expire]
    is computed from and [now_iat] the later reading stored under [iat]. *)
Definition create_email_token (self : Auth) (data : gmap string pyval)
    (now now_iat : datetime) : result Jose.token :=
  let to_encode := data in
  expire <-? datetime_add now (timedelta_days 7);
  let to_encode :=
    update to_encode [("iat", PDatetime now_iat); ("exp", PDatetime expire)] in
  Jose.encode to_encode (SECRET_KEY self) (ALGORITHM self).

(** [print(e)] in the handler is not modelled. *)
Definition get_email_from_token (self : Auth) (now : datetime)
    (token : Jose.token) : result json :=
  try_except_JWTError
    (payload <-? Jose.decode token (SECRET_KEY self) [ALGORITHM self] now;
     email <-? getitem payload "sub";
     Return email)
    (fun e =>
       Raise (HTTPException HTTP_422_UNPROCESSABLE_ENTITY
                "Invalid token for email verification" [])).

Definition create_access_token (self : Auth) (data : gmap string pyval)
    (expires_delta : option number) (now now_iat : datetime)
    : result Jose.token :=
  let to_encode := data in
  expire <-?
    (if truthy expires_delta
     then
       td <-? timedelta_of_number (default (NInt 0) expires_delta);
       datetime_add now td
     else datetime_add now (timedelta_minutes 15));
  let to_encode :=
    update to_encode
      [("iat", PDatetime now_iat); ("exp", PDatetime expire);
       ("scope", PJson (JStr "access_token"))] in
  Jose.encode to_encode (SECRET_KEY self) (ALGORITHM self).

Definition create_refresh_token (self : Auth) (data : gmap string pyval)
    (expires_delta : option number) (now now_iat : datetime)
    : result Jose.token :=
  let to_encode := data in
  expire <-?
    (if truthy expires_delta
     then
       td <-? timedelta_of_number (default (NInt 0) expires_delta);
       datetime_add now td
     else datetime_add now (timedelta_days 7));
  let to_encode :=
    update to_encode
      [("iat", PDatetime now_iat); ("exp", PDatetime expire);
       ("scope", PJson (JStr "refresh_token"))] in
  Jose.encode to_encode (SECRET_KEY self) (ALGORITHM self).

Definition decode_refresh_token (self : Auth) (now : datetime)
    (refresh_token : Jose.token) : result json :=
  try_except_JWTError
    (payload <-? Jose.decode refresh_token (SECRET_KEY self)
                   [ALGORITHM self] now;
     scope <-? getitem payload "scope";
     if bool_decide (scope = JStr "refresh_token") then
       email <-? getitem payload "sub";
       Return email
     else
       Raise (HTTPException HTTP_401_UNAUTHORIZED
                "Invalid scope for token" []))
    (fun _ =>
       Raise (HTTPException HTTP_401_UNAUTHORIZED
                "Could not validate credentials" [])).

(** The [try] block of [get_current_user]: from the bearer token to the
    subject. *)
Definition get_current_user_subject (self : Auth) (now : datetime)
    (token : Jose.token) : result json :=
  try_except_JWTError
    (payload <-? Jose.decode token (SECRET_KEY self) [ALGORITHM self] now;
     scope <-? getitem payload "scope";
     if bool_decide (scope = JStr "access_token") then
       email <-? getitem payload "sub";
       if bool_decide (email = JNull) then Raise credentials_exception
       else Return email
     else Raise credentials_exception)
    (fun e => Raise credentials_exception).

Definition get_current_user (self : Auth) (now : datetime)
    (token : Jose.token) : M UserAuth.t :=
  email <-! lift (get_current_user_subject self now token);
  user <-! r_get ("user:" +:+ py_str email);
  match user with
  | None =>
      user <-! get_user_by_email_M email;
      match user with
      | None => mraise credentials_exception
      | Some user =>
          _ <-! r_set ("user:" +:+ py_str email) (Pickle.dumps user);
          _ <-! r_expire ("user:" +:+ py_str email) 900;
          mret user
      end
  | Some user => lift (Pickle.loads user)
  end.

End service.

(** ** An instance of [Libraries]

    Used to run the examples; the theorems hold of every instance. Integer
    literals are an optional minus sign and decimal digits; every [JOther]
    is taken for an array or an object; the floats are
    those of integral value, given by that value; two keys agree when they
    are equal; a hash is the prefix [$2b$] followed by the secret. *)

Fixpoint digits_value (acc : Z) (s : string) : option Z :=
  match s with
  | EmptyString => Some acc
  | String c rest =>
      let n := Z.of_N (Ascii.N_of_ascii c) - 48 in
      if (0 <=? n) && (n <=? 9) then digits_value (10 * acc + n) rest
      else None
  end.

Definition example_int_of_str (s : string) : option Z :=
  match s with
  | EmptyString => None
  | String c rest =>
      if bool_decide (String c "" = "-") then
        if bool_decide (rest = "") then None
        else Z.opp <$> digits_value 0 rest
      else digits_value 0 s
  end.

Definition example_pwd_verify (secret h : string) : result bool :=
  if Passlib.identify h then Return (bool_decide (h = "$2b$" +:+ secret))
  else Raise UnknownHashError.

Global Instance example_libraries : Libraries.
Proof.
  refine {|
    int_of_str := example_int_of_str;
    int_of_other := fun _ => Raise TypeError;
    str_of_other := fun text => text;
    pyfloat := Z;
    float_truth := fun x => negb (x =? 0);
    float_timedelta := timedelta_of_int;
    hmac_same_key := fun _ signer key => bool_decide (signer = key);
    pwd_hash := fun _ secret => Return ("$2b$" +:+ secret);
    pwd_verify := example_pwd_verify
  |}.
  - intros text e [= <-]. now left.
  - intros alg key. now apply bool_decide_eq_true_2.
  - intros secret h Hid. unfold example_pwd_verify. now rewrite Hid.
  - intros salt secret h [= <-]. unfold example_pwd_verify.
    assert (Hid : Passlib.identify ("$2b$" +:+ secret) = true).
    { unfold Passlib.identify. cbn. now destruct secret. }
    rewrite Hid. now rewrite bool_decide_eq_true_2.
Defined.

(** ** Definitions used in the statements *)

Definition subject_data (email : string) : gmap string pyval :=
  {[ "sub" := PJson (JStr email) ]}.

(** An instant Python can hold in a [datetime]. *)
Definition representable (d : datetime) : Prop :=
  datetime_min <= d <= datetime_max.

(** The expiry instant the access and refresh issuers compute. *)
Definition expiry `{Libraries} (default_ttl : timedelta)
    (expires_delta : option number) (now : datetime) : result datetime :=
  if truthy expires_delta
  then
    td <-? timedelta_of_number (default (NInt 0) expires_delta);
    datetime_add now td
  else datetime_add now default_ttl.

(** The claims of a token issued for [email]. *)
Definition scoped_claims (email scope : string) (iat exp : datetime)
    : gmap string json :=
  <["scope" := JStr scope]>
    (<["exp" := JInt (timegm exp)]>
       (<["iat" := JInt (timegm iat)]> {[ "sub" := JStr email ]})).

Definition unscoped_claims (email : string) (iat exp : datetime)
    : gmap string json :=
  <["exp" := JInt (timegm exp)]>
    (<["iat" := JInt (timegm iat)]> {[ "sub" := JStr email ]}).

Definition exp_claim (t : Jose.token) : option json :=
  Jose.get_unverified_claims t !! "exp".

(** Claims as the service issues them: a string subject, integer [iat] and
    [exp], and none of the other claims jose validates. *)
Definition issued_shape (claims : gmap string json) (email : string)
    (exp : Z) : Prop :=
  claims !! "sub" = Some (JStr email)
  /\ claims !! "exp" = Some (JInt exp)
  /\ (exists iat, claims !! "iat" = Some (JInt iat))
  /\ claims !! "nbf" = None
  /\ claims !! "aud" = None
  /\ claims !! "jti" = None
  /\ claims !! "at_hash" = None.

(** What validation and decoding can raise. *)
Definition decode_error (e : exn) : Prop :=
  e = TypeError \/ e = OverflowError \/ e = JWKError
  \/ exists k, e = JWTError k.

(** C3, the claim as written, in its two universal parts: a token is issued
    for every lifetime, and once the instant [exp] is past the access token
    is no longer decoded. *)
Definition issued_for_every_ttl `{Libraries} (self : Auth) (email : string)
    (ttl : Z) (now now_iat : datetime) : Prop :=
  exists access,
    create_access_token self (subject_data email) (Some (NInt ttl))
      now now_iat = Return access.

Definition fails_once_exp_elapsed `{Libraries} (self : Auth)
    (email : string) (now now_iat t : datetime) : Prop :=
  forall access exp,
    create_access_token self (subject_data email) None now now_iat
    = Return access ->
    exp_claim access = Some (JInt exp) ->
    exp * 1000000 < t ->
    exists e, get_current_user_subject self t access = Raise e.

(** C6, the claim as written, for access tokens: a supplied [expires_delta]
    of [delta] seconds puts [exp] at [now + delta]. *)
Definition expires_delta_overrides `{Libraries} (self : Auth)
    (email : string) (delta : Z) (now now_iat : datetime) : Prop :=
  exists t,
    create_access_token self (subject_data email) (Some (NInt delta))
      now now_iat = Return t
    /\ exp_claim t = Some (JInt (timegm now + delta)).

(** C5, the claim as written: [get_email_from_token] either returns the
    subject the token carries or fails with a 422. *)
Definition returns_subject_or_422 `{Libraries} (self : Auth)
    (now : datetime) (token : Jose.token) : Prop :=
  (exists email,
     get_email_from_token self now token = Return email
     /\ Jose.get_unverified_claims token !! "sub" = Some email)
  \/ (exists detail headers,
        get_email_from_token self now token
        = Raise (HTTPException HTTP_422_UNPROCESSABLE_ENTITY detail headers)).


Definition alice : UserAuth.t := {|
  UserAuth.id := 1;
  UserAuth.username := "alice";
  UserAuth.email := "a@b.c";
  UserAuth.password := "$2b$secret";
  UserAuth.avatar := None;
  UserAuth.refresh_token := None;
  UserAuth.confirmed := true
|}.

Definition alice_access_token : Jose.token :=
  Jose.Compact "HS256" "secret_key"
    (scoped_claims "a@b.c" "access_token" 1000000005 1900000000).

Definition alice_world : World := {|
  redis :=
    {[ "user:a@b.c" :=
         {| Redis.value := Pickle.Pickled alice; Redis.ttl := Some 900 |} ]};
  db := {| users := []; users_auth := [alice]; lookups := [] |}
|}.

Definition session_of (rows : list User.t) : Session :=
  {| users := rows; users_auth := []; lookups := [] |}.

(** Dates compared as (year, month, day). *)
Definition date_leb (a b : date) : bool :=
  (year a <? year b)
  || ((year a =? year b)
      && ((month a <? month b)
          || ((month a =? month b) && (day a <=? day b)))).

(** The birthday, moved into the year of [today] or of [end_date], falls
    between the two dates. *)
Definition birthday_within (today end_date birthday : date) : bool :=
  existsb
    (fun y =>
       let occurrence :=
         {| year := y; month := month birthday; day := day birthday |} in
       date_leb today occurrence && date_leb occurrence end_date)
    [year today; year end_date].

Definition bob : User.t := {|
  User.id := 7;
  User.first_name := "Bob";
  User.last_name := "Stone";
  User.birthday_date := {| year := 1990; month := 1; day := 30 |};
  User.email := "bob@example.com";
  User.phone_numbers := "555-0100";
  User.other_description := ""
|}.

(** What one row contributes to the result of [search_users]. *)
Definition appended (first_name last_name email : option string)
    (user : User.t) : list User.t :=
  (if bool_decide (first_name = Some (User.first_name user))
   then [user] else [])
  ++ (if bool_decide (last_name = Some (User.last_name user))
      then [user] else [])
  ++ (if bool_decide (email = Some (User.email user))
      then [user] else []).

(** The number of given criteria a row matches. *)
Definition criteria_matched (first_name last_name email : option string)
    (user : User.t) : nat :=
  length (appended first_name last_name email user).

Definition bob_update : UserSchema.t := {|
  UserSchema.first_name := "Robert";
  UserSchema.last_name := "Stone";
  UserSchema.birthday_date := {| year := 2001; month := 12; day := 31 |};
  UserSchema.email := "robert@example.com";
  UserSchema.phone_numbers := "555-0199";
  UserSchema.other_description := "renamed"
|}.

(** A calendar date, as [date.today()] returns one: a day of a month of a
    year from 1 to 9999. *)
Definition valid_date (d : date) : Prop :=
  1 <= year d <= MAXYEAR
  /\ 1 <= month d <= 12
  /\ 1 <= day d <= days_in_month (year d) (month d).

(** No two rows of the contacts table share a primary key. *)
Definition unique_ids (db : Session) : Prop :=
  NoDup (User.id <$> users db).

(** Every cache entry is the pickle of a user and sits under the key made
    of that user's e-mail. *)
Definition keyed_by_email (store : gmap string Redis.entry) : Prop :=
  forall key entry,
    store !! key = Some entry ->
    exists user,
      Redis.value entry = Pickle.Pickled user
      /\ key = "user:" +:+ UserAuth.email user.

(** The test of [search_users] on one row: some given criterion equals the
    row's column. *)
Definition matches_some (first_name last_name email : option string)
    (user : User.t) : Prop :=
  first_name = Some (User.first_name user)
  \/ last_name = Some (User.last_name user)
  \/ email = Some (User.email user).

(** A run of update requests, each an id and a body, applied in order. *)
Definition apply_updates (requests : list (Z * UserSchema.t)) (db : Session)
    : Session :=
  foldl (fun db request => (update_user request.1 request.2 db).2)
    db requests.

(** The world [seconds] later, nothing else having happened. *)
Definition later (seconds : Z) (w : World) : World :=
  {| redis := Redis.elapse seconds (redis w); db := db w |}.

(** * Properties *)

(** ** Issued tokens *)

Lemma same_dom_same_size {A B} (m1 : gmap string A) (m2 : gmap string B) :
  dom m1 = dom m2 -> size m1 = size m2.
Proof.
  intros Hd. rewrite <- (size_dom m1), <- (size_dom m2). now rewrite Hd.
Qed.

Lemma encode_converted (claims : gmap string pyval)
    (converted : gmap string json) (key alg : string) :
  map_imap Jose.to_json claims = converted ->
  dom converted = dom claims ->
  Jose.supported alg = true ->
  Jose.encode claims key alg = Return (Jose.Compact alg key converted).
Proof.
  intros Hc Hd Hs. unfold Jose.encode. rewrite Hc, Hs.
  rewrite (same_dom_same_size _ _ Hd), Nat.eqb_refl. reflexivity.
Qed.

Lemma encode_scoped (email scope key alg : string) (iat exp : datetime) :
  Jose.supported alg = true ->
  Jose.encode
    (update (subject_data email)
       [("iat", PDatetime iat); ("exp", PDatetime exp);
        ("scope", PJson (JStr scope))]) key alg
  = Return (Jose.Compact alg key (scoped_claims email scope iat exp)).
Proof.
  intros Hs. apply encode_converted; [| | exact Hs].
  - unfold update, subject_data, scoped_claims. simpl foldl.
    rewrite <- !insert_empty.
    repeat (erewrite map_imap_insert_Some; [| reflexivity]).
    rewrite map_imap_empty.
    reflexivity.
  - unfold update, subject_data, scoped_claims. simpl foldl.
    rewrite !dom_insert_L, !dom_singleton_L. reflexivity.
Qed.

Lemma encode_unscoped (email key alg : string) (iat exp : datetime) :
  Jose.supported alg = true ->
  Jose.encode
    (update (subject_data email)
       [("iat", PDatetime iat); ("exp", PDatetime exp)]) key alg
  = Return (Jose.Compact alg key (unscoped_claims email iat exp)).
Proof.
  intros Hs. apply encode_converted; [| | exact Hs].
  - unfold update, subject_data, unscoped_claims. simpl foldl.
    rewrite <- !insert_empty.
    repeat (erewrite map_imap_insert_Some; [| reflexivity]).
    rewrite map_imap_empty. reflexivity.
  - unfold update, subject_data, unscoped_claims. simpl foldl.
    rewrite !dom_insert_L, !dom_singleton_L. reflexivity.
Qed.

Lemma scoped_claims_lookup email scope iat exp :
  scoped_claims email scope iat exp !! "scope" = Some (JStr scope)
  /\ issued_shape (scoped_claims email scope iat exp) email (timegm exp).
Proof.
  unfold issued_shape, scoped_claims.
  repeat split; try (by simplify_map_eq).
  exists (timegm iat). by simplify_map_eq.
Qed.

Lemma unscoped_claims_lookup email iat exp :
  unscoped_claims email iat exp !! "scope" = None
  /\ issued_shape (unscoped_claims email iat exp) email (timegm exp).
Proof.
  unfold issued_shape, unscoped_claims.
  repeat split; try (by simplify_map_eq).
  exists (timegm iat). by simplify_map_eq.
Qed.

Lemma timegm_add_seconds (now : datetime) (s : Z) :
  timegm (now + timedelta_seconds s) = timegm now + s.
Proof. unfold timegm, timedelta_seconds. now rewrite Z.div_add by lia. Qed.

Lemma datetime_add_Return (d : datetime) (td : timedelta) (x : datetime) :
  datetime_add d td = Return x <-> x = d + td /\ representable (d + td).
Proof.
  unfold datetime_add, representable.
  destruct (Z.leb_spec datetime_min (d + td)),
    (Z.leb_spec (d + td) datetime_max); cbn;
    (split; [intros [= <-] | intros [-> Hr]]); try discriminate;
    try (split; [reflexivity | lia]); try reflexivity; lia.
Qed.

Lemma datetime_add_representable (d : datetime) (td : timedelta) :
  representable (d + td) -> datetime_add d td = Return (d + td).
Proof. intros Hr. now apply datetime_add_Return. Qed.

Lemma timedelta_of_int_between (s : Z) (now : datetime) :
  representable now -> representable (now + timedelta_seconds s) ->
  timedelta_of_int s = Return (timedelta_seconds s).
Proof.
  unfold representable, timedelta_of_int, timedelta_seconds, datetime_min,
    datetime_max, timedelta_min, timedelta_max.
  intros Hn Hs.
  destruct (Z.leb_spec (-999999999 * 86400 * 1000000) (s * 1000000)),
    (Z.leb_spec (s * 1000000) (1000000000 * 86400 * 1000000 - 1));
    cbn; try reflexivity; lia.
Qed.

Section issued.
Context `{Libraries}.

Lemma expiry_falsy default_ttl expires_delta now :
  truthy expires_delta = false ->
  expiry default_ttl expires_delta now = datetime_add now default_ttl.
Proof. intros Ht. unfold expiry. now rewrite Ht. Qed.

Lemma expiry_int default_ttl delta now :
  delta <> 0 ->
  representable now -> representable (now + timedelta_seconds delta) ->
  expiry default_ttl (Some (NInt delta)) now
  = Return (now + timedelta_seconds delta).
Proof.
  intros Hd Hn Hr. unfold expiry. cbn.
  destruct (Z.eqb_spec delta 0); [contradiction |]. cbn.
  rewrite (timedelta_of_int_between delta now Hn Hr). cbn.
  now apply datetime_add_representable.
Qed.

Lemma expiry_float default_ttl x td now :
  float_truth x = true ->
  float_timedelta x = Return td ->
  representable (now + td) ->
  expiry default_ttl (Some (NFloat x)) now = Return (now + td).
Proof.
  intros Ht Htd Hr. unfold expiry. cbn. rewrite Ht. cbn. rewrite Htd. cbn.
  now apply datetime_add_representable.
Qed.

Lemma create_access_token_expiry self data expires_delta now now_iat :
  create_access_token self data expires_delta now now_iat
  = (expire <-? expiry (timedelta_minutes 15) expires_delta now;
     Jose.encode
       (update data
          [("iat", PDatetime now_iat); ("exp", PDatetime expire);
           ("scope", PJson (JStr "access_token"))])
       (SECRET_KEY self) (ALGORITHM self)).
Proof. reflexivity. Qed.

Lemma create_refresh_token_expiry self data expires_delta now now_iat :
  create_refresh_token self data expires_delta now now_iat
  = (expire <-? expiry (timedelta_days 7) expires_delta now;
     Jose.encode
       (update data
          [("iat", PDatetime now_iat); ("exp", PDatetime expire);
           ("scope", PJson (JStr "refresh_token"))])
       (SECRET_KEY self) (ALGORITHM self)).
Proof. reflexivity. Qed.

Lemma create_access_token_subject self email expires_delta now now_iat xa :
  Jose.supported (ALGORITHM self) = true ->
  expiry (timedelta_minutes 15) expires_delta now = Return xa ->
  create_access_token self (subject_data email) expires_delta now now_iat
  = Return (Jose.Compact (ALGORITHM self) (SECRET_KEY self)
      (scoped_claims email "access_token" now_iat xa)).
Proof.
  intros Hs Hx. rewrite create_access_token_expiry, Hx. cbn [rbind].
  now apply encode_scoped.
Qed.

Lemma create_refresh_token_subject self email expires_delta now now_iat xr :
  Jose.supported (ALGORITHM self) = true ->
  expiry (timedelta_days 7) expires_delta now = Return xr ->
  create_refresh_token self (subject_data email) expires_delta now now_iat
  = Return (Jose.Compact (ALGORITHM self) (SECRET_KEY self)
      (scoped_claims email "refresh_token" now_iat xr)).
Proof.
  intros Hs Hx. rewrite create_refresh_token_expiry, Hx. cbn [rbind].
  now apply encode_scoped.
Qed.

Lemma create_email_token_subject self email now now_iat xv :
  Jose.supported (ALGORITHM self) = true ->
  datetime_add now (timedelta_days 7) = Return xv ->
  create_email_token self (subject_data email) now now_iat
  = Return (Jose.Compact (ALGORITHM self) (SECRET_KEY self)
      (unscoped_claims email now_iat xv)).
Proof.
  intros Hs Hx. unfold create_email_token. rewrite Hx. cbn [rbind].
  now apply encode_unscoped.
Qed.

(** ** Decoding *)

Lemma validate_claims_issued (claims : gmap string json) (email : string)
    (exp : Z) (now : datetime) :
  issued_shape claims email exp ->
  Jose.validate_claims claims now
  = if exp <? timegm now then Raise (JWTError ExpiredSignatureError)
    else Return tt.
Proof.
  intros (Hsub & Hexp & [iat Hiat] & Hnbf & Haud & Hjti & Hat).
  unfold Jose.validate_claims, Jose.validate_iat, Jose.validate_nbf,
    Jose.validate_exp, Jose.validate_aud, Jose.validate_sub,
    Jose.validate_jti, Jose.validate_at_hash.
  rewrite Hiat, Hnbf, Hexp, Haud, Hsub, Hjti, Hat. cbn.
  destruct (exp <? timegm now); reflexivity.
Qed.

Lemma decode_own_key (alg key : string) (claims : gmap string json)
    (now : datetime) :
  Jose.supported alg = true ->
  Jose.decode (Jose.Compact alg key claims) key [alg] now
  = (_ <-? Jose.validate_claims claims now; Return claims).
Proof.
  intros Hs. unfold Jose.decode.
  rewrite (bool_decide_eq_true_2 (alg ∈ [alg])) by apply list_elem_of_here.
  rewrite Hs, hmac_same_key_refl. reflexivity.
Qed.

Lemma decode_live (alg key : string) (claims : gmap string json)
    (email : string) (exp : Z) (now : datetime) :
  Jose.supported alg = true ->
  issued_shape claims email exp ->
  timegm now <= exp ->
  Jose.decode (Jose.Compact alg key claims) key [alg] now = Return claims.
Proof.
  intros Hs Hshape Hle. rewrite decode_own_key by exact Hs.
  rewrite (validate_claims_issued _ _ _ _ Hshape).
  destruct (Z.ltb_spec exp (timegm now)); [lia | reflexivity].
Qed.

Lemma decode_expired (alg key : string) (claims : gmap string json)
    (email : string) (exp : Z) (now : datetime) :
  Jose.supported alg = true ->
  issued_shape claims email exp ->
  exp < timegm now ->
  Jose.decode (Jose.Compact alg key claims) key [alg] now
  = Raise (JWTError ExpiredSignatureError).
Proof.
  intros Hs Hshape Hlt. rewrite decode_own_key by exact Hs.
  rewrite (validate_claims_issued _ _ _ _ Hshape).
  destruct (Z.ltb_spec exp (timegm now)); [reflexivity | lia].
Qed.

Lemma claim_int_cases (v : json) :
  (exists z, Jose.claim_int v = Return z)
  \/ Jose.claim_int v = Raise TypeError
  \/ Jose.claim_int v = Raise OverflowError
  \/ Jose.claim_int v = Raise (JWTError JWTClaimsError).
Proof.
  unfold Jose.claim_int, Jose.py_int.
  destruct v as [| b | z | s | text]; eauto.
  - destruct (int_of_str s); eauto.
  - destruct (int_of_other text) as [z | e] eqn:Hint; [eauto |].
    destruct (int_of_other_raises _ _ Hint) as [-> | [-> | ->]]; eauto.
Qed.

Lemma validate_claims_cases (claims : gmap string json) (now : datetime) :
  (Jose.validate_claims claims now = Return tt
   /\ Jose.validate_sub claims = Return tt)
  \/ (exists e, Jose.validate_claims claims now = Raise e /\ decode_error e).
Proof.
  unfold Jose.validate_claims, decode_error.
  assert (Hiat : Jose.validate_iat claims = Return tt
                 \/ exists e, Jose.validate_iat claims = Raise e
                              /\ decode_error e).
  { unfold Jose.validate_iat, decode_error.
    destruct (claims !! "iat") as [v |]; [| eauto].
    destruct (claim_int_cases v) as [[z ->] | [-> | [-> | ->]]]; cbn; eauto 9. }
  assert (Hnbf : Jose.validate_nbf claims now = Return tt
                 \/ exists e, Jose.validate_nbf claims now = Raise e
                              /\ decode_error e).
  { unfold Jose.validate_nbf, decode_error.
    destruct (claims !! "nbf") as [v |]; [| eauto].
    destruct (claim_int_cases v) as [[z ->] | [-> | [-> | ->]]]; cbn; eauto 9.
    destruct (timegm now <? z); eauto 9. }
  assert (Hexp : Jose.validate_exp claims now = Return tt
                 \/ exists e, Jose.validate_exp claims now = Raise e
                              /\ decode_error e).
  { unfold Jose.validate_exp, decode_error.
    destruct (claims !! "exp") as [v |]; [| eauto].
    destruct (claim_int_cases v) as [[z ->] | [-> | [-> | ->]]]; cbn; eauto 9.
    destruct (z <? timegm now); eauto 9. }
  assert (Haud : Jose.validate_aud claims = Return tt
                 \/ exists e, Jose.validate_aud claims = Raise e
                              /\ decode_error e).
  { unfold Jose.validate_aud, decode_error.
    destruct (claims !! "aud"); eauto 9. }
  assert (Hsub : Jose.validate_sub claims = Return tt
                 \/ exists e, Jose.validate_sub claims = Raise e
                              /\ decode_error e).
  { unfold Jose.validate_sub, decode_error.
    destruct (claims !! "sub") as [[| | | |] |]; eauto 9. }
  assert (Hjti : Jose.validate_jti claims = Return tt
                 \/ exists e, Jose.validate_jti claims = Raise e
                              /\ decode_error e).
  { unfold Jose.validate_jti, decode_error.
    destruct (claims !! "jti") as [[| | | |] |]; eauto 9. }
  assert (Hat : Jose.validate_at_hash claims = Return tt
                \/ exists e, Jose.validate_at_hash claims = Raise e
                             /\ decode_error e).
  { unfold Jose.validate_at_hash, decode_error.
    destruct (claims !! "at_hash"); eauto 9. }
  unfold decode_error in *.
  destruct Hiat as [-> | (e & -> & He)]; cbn; [| eauto].
  destruct Hnbf as [-> | (e & -> & He)]; cbn; [| eauto].
  destruct Hexp as [-> | (e & -> & He)]; cbn; [| eauto].
  destruct Haud as [-> | (e & -> & He)]; cbn; [| eauto].
  destruct Hsub as [-> | (e & -> & He)]; cbn; [| eauto].
  destruct Hjti as [-> | (e & -> & He)]; cbn; [| eauto].
  destruct Hat as [-> | (e & -> & He)]; cbn; eauto.
Qed.

(** Decoding yields the claims of the token, which then passed every
    validator, or one of the four kinds of exception. *)
Lemma decode_cases (t : Jose.token) (key : string) (algs : list string)
    (now : datetime) :
  (exists e, Jose.decode t key algs now = Raise e /\ decode_error e)
  \/ (exists claims,
        Jose.decode t key algs now = Return claims
        /\ Jose.get_unverified_claims t = claims
        /\ Jose.validate_sub claims = Return tt).
Proof.
  destruct t as [alg signer claims | s]; cbn;
    [| left; eexists; split; [reflexivity | unfold decode_error; eauto]].
  destruct (bool_decide (alg ∈ algs)); cbn;
    [| left; eexists; split; [reflexivity | unfold decode_error; eauto]].
  destruct (Jose.supported alg); cbn;
    [| left; eexists; split; [reflexivity | unfold decode_error; eauto]].
  destruct (hmac_same_key alg signer key); cbn;
    [| left; eexists; split; [reflexivity | unfold decode_error; eauto]].
  destruct (validate_claims_cases claims now)
    as [[-> Hsub] | (e & -> & He)]; cbn; eauto.
Qed.

End issued.

(** ** The subject of a bearer token *)

Section subject.
Context `{Libraries}.

Lemma subject_of_decoded self now token payload :
  Jose.decode token (SECRET_KEY self) [ALGORITHM self] now = Return payload ->
  get_current_user_subject self now token
  = match payload !! "scope" with
    | None => Raise (KeyError "scope")
    | Some scope =>
        if bool_decide (scope = JStr "access_token") then
          match payload !! "sub" with
          | None => Raise (KeyError "sub")
          | Some email =>
              if bool_decide (email = JNull) then Raise credentials_exception
              else Return email
          end
        else Raise credentials_exception
    end.
Proof.
  intros Hd. unfold get_current_user_subject. rewrite Hd. simpl.
  unfold getitem.
  destruct (payload !! "scope") as [scope |]; simpl; [| reflexivity].
  destruct (bool_decide (scope = JStr "access_token")); simpl;
    [| reflexivity].
  destruct (payload !! "sub") as [email |]; simpl; [| reflexivity].
  destruct (bool_decide (email = JNull)); reflexivity.
Qed.

Lemma subject_of_undecodable self now token k :
  Jose.decode token (SECRET_KEY self) [ALGORITHM self] now
  = Raise (JWTError k) ->
  get_current_user_subject self now token = Raise credentials_exception.
Proof. intros Hd. unfold get_current_user_subject. now rewrite Hd. Qed.

Lemma refresh_of_decoded self now token payload :
  Jose.decode token (SECRET_KEY self) [ALGORITHM self] now = Return payload ->
  decode_refresh_token self now token
  = match payload !! "scope" with
    | None => Raise (KeyError "scope")
    | Some scope =>
        if bool_decide (scope = JStr "refresh_token") then
          match payload !! "sub" with
          | None => Raise (KeyError "sub")
          | Some email => Return email
          end
        else Raise (HTTPException HTTP_401_UNAUTHORIZED
                      "Invalid scope for token" [])
    end.
Proof.
  intros Hd. unfold decode_refresh_token. rewrite Hd. simpl.
  unfold getitem.
  destruct (payload !! "scope") as [scope |]; simpl; [| reflexivity].
  destruct (bool_decide (scope = JStr "refresh_token")); simpl;
    [| reflexivity].
  destruct (payload !! "sub") as [email |]; reflexivity.
Qed.

Lemma email_of_decoded self now token payload :
  Jose.decode token (SECRET_KEY self) [ALGORITHM self] now = Return payload ->
  get_email_from_token self now token
  = match payload !! "sub" with
    | None => Raise (KeyError "sub")
    | Some email => Return email
    end.
Proof.
  intros Hd. unfold get_email_from_token. rewrite Hd. simpl.
  unfold getitem. destruct (payload !! "sub"); reflexivity.
Qed.

(** A failure of the subject extraction leaves Redis and the database
    alone. *)
Lemma get_current_user_no_subject self now token e w :
  get_current_user_subject self now token = Raise e ->
  get_current_user self now token w = (Raise e, w).
Proof.
  intros Hs. unfold get_current_user, mbind, lift. now rewrite Hs.
Qed.

(** The three decoders on a live token of the service. *)
Lemma live_token self now claims email exp :
  Jose.supported (ALGORITHM self) = true ->
  issued_shape claims email exp ->
  timegm now <= exp ->
  Jose.decode (Jose.Compact (ALGORITHM self) (SECRET_KEY self) claims)
    (SECRET_KEY self) [ALGORITHM self] now = Return claims
  /\ claims !! "sub" = Some (JStr email).
Proof.
  intros Hs Hshape Hle. split; [now apply decode_live with email exp |].
  apply Hshape.
Qed.

Lemma expired_token self now claims email exp :
  Jose.supported (ALGORITHM self) = true ->
  issued_shape claims email exp ->
  exp < timegm now ->
  Jose.decode (Jose.Compact (ALGORITHM self) (SECRET_KEY self) claims)
    (SECRET_KEY self) [ALGORITHM self] now
  = Raise (JWTError ExpiredSignatureError).
Proof. intros Hs Hshape Hlt. now apply decode_expired with email exp. Qed.

End subject.

(** ** Claims on the token codec *)

Section codec.
Context `{Libraries}.

(** C6 (amended): with no [expires_delta], or with one that is zero, an
    access token expires 15 minutes (900 s) and a refresh token 7 days
    (604800 s) after the second of issue; an e-mail token always expires 7
    days after it; a non-zero [expires_delta] replaces the default of access
    and refresh tokens by that many seconds. Each holds when the expiry
    instant is one a [datetime] can hold; an integer [expires_delta] that
    takes it out of that range makes both issuers raise [OverflowError]. *)
Theorem token_lifetimes self email expires_delta now now_iat :
  Jose.supported (ALGORITHM self) = true ->
  representable now ->
  (representable (now + timedelta_days 7) ->
   exists verify,
     create_email_token self (subject_data email) now now_iat = Return verify
     /\ exp_claim verify = Some (JInt (timegm now + 604800)))
  /\ (truthy expires_delta = false ->
      (representable (now + timedelta_minutes 15) ->
       exists access,
         create_access_token self (subject_data email) expires_delta
           now now_iat = Return access
         /\ exp_claim access = Some (JInt (timegm now + 900)))
      /\ (representable (now + timedelta_days 7) ->
          exists refresh,
            create_refresh_token self (subject_data email) expires_delta
              now now_iat = Return refresh
            /\ exp_claim refresh = Some (JInt (timegm now + 604800))))
  /\ (forall delta,
        expires_delta = Some (NInt delta) -> delta <> 0 ->
        (representable (now + timedelta_seconds delta) ->
         exists access refresh,
           create_access_token self (subject_data email) expires_delta
             now now_iat = Return access
           /\ create_refresh_token self (subject_data email) expires_delta
                now now_iat = Return refresh
           /\ exp_claim access = Some (JInt (timegm now + delta))
           /\ exp_claim refresh = Some (JInt (timegm now + delta)))
        /\ (~ representable (now + timedelta_seconds delta) ->
            create_access_token self (subject_data email) expires_delta
              now now_iat = Raise OverflowError
            /\ create_refresh_token self (subject_data email) expires_delta
                 now now_iat = Raise OverflowError))
  /\ (forall x td,
        expires_delta = Some (NFloat x) -> float_truth x = true ->
        float_timedelta x = Return td ->
        representable (now + td) ->
        exists access refresh,
          create_access_token self (subject_data email) expires_delta
            now now_iat = Return access
          /\ create_refresh_token self (subject_data email) expires_delta
               now now_iat = Return refresh
          /\ exp_claim access = Some (JInt (timegm (now + td)))
          /\ exp_claim refresh = Some (JInt (timegm (now + td)))).
Proof.
  intros Hs Hnow.
  assert (Hexp_scoped : forall scope x,
            exp_claim (Jose.Compact (ALGORITHM self) (SECRET_KEY self)
                         (scoped_claims email scope now_iat x))
            = Some (JInt (timegm x))).
  { intros scope x. unfold exp_claim. cbn.
    apply (scoped_claims_lookup email scope now_iat x). }
  split; [| split; [| split]].
  - intros Hr. eexists. split.
    + apply create_email_token_subject; [exact Hs |].
      now apply datetime_add_representable.
    + unfold exp_claim. cbn.
      destruct (unscoped_claims_lookup email now_iat (now + timedelta_days 7))
        as (_ & _ & -> & _).
      unfold timedelta_days. now rewrite timegm_add_seconds.
  - intros Hf. split; intros Hr; eexists; split.
    + apply create_access_token_subject; [exact Hs |].
      rewrite expiry_falsy by exact Hf.
      now apply datetime_add_representable.
    + rewrite Hexp_scoped. unfold timedelta_minutes.
      now rewrite timegm_add_seconds.
    + apply create_refresh_token_subject; [exact Hs |].
      rewrite expiry_falsy by exact Hf.
      now apply datetime_add_representable.
    + rewrite Hexp_scoped. unfold timedelta_days.
      now rewrite timegm_add_seconds.
  - intros delta -> Hd. split.
    + intros Hr. eexists _, _.
      split; [now apply create_access_token_subject, expiry_int |].
      split; [now apply create_refresh_token_subject, expiry_int |].
      rewrite !Hexp_scoped, timegm_add_seconds. split; reflexivity.
    + intros Hout.
      assert (Hx : forall default_ttl,
                expiry default_ttl (Some (NInt delta)) now
                = Raise OverflowError).
      { intros default_ttl. unfold expiry. cbn.
        destruct (Z.eqb_spec delta 0); [contradiction |]. cbn.
        unfold timedelta_of_int.
        destruct ((timedelta_min <=? delta * 1000000)
                  && (delta * 1000000 <=? timedelta_max)); [| reflexivity].
        cbn. unfold datetime_add.
        destruct (Z.leb_spec datetime_min (now + delta * 1000000)),
          (Z.leb_spec (now + delta * 1000000) datetime_max);
          cbn; try reflexivity.
        destruct Hout. unfold representable, timedelta_seconds. lia. }
      rewrite create_access_token_expiry, create_refresh_token_expiry, !Hx.
      split; reflexivity.
  - intros x td -> Ht Htd Hr. eexists _, _.
    split.
    { apply create_access_token_subject; [exact Hs |].
      now apply (expiry_float _ x td). }
    split.
    { apply create_refresh_token_subject; [exact Hs |].
      now apply (expiry_float _ x td). }
    rewrite !Hexp_scoped. split; reflexivity.
Qed.

(** C3 (amended): when the expiry instant is one a [datetime] can hold, the
    token is issued, and it decodes, under the scope it was issued with, to
    the subject [email] at every instant whose whole second is not past
    [exp], which includes the second that follows the instant [exp]; at
    every instant whose whole second is past [exp], [jwt.decode] raises
    [ExpiredSignatureError], which the access and refresh paths report as
    401 and the e-mail path as 422. *)
Theorem issue_decode_roundtrip
    self email expires_delta now now_iat xa xr xv :
  Jose.supported (ALGORITHM self) = true ->
  expiry (timedelta_minutes 15) expires_delta now = Return xa ->
  expiry (timedelta_days 7) expires_delta now = Return xr ->
  datetime_add now (timedelta_days 7) = Return xv ->
  exists access refresh verify,
    create_access_token self (subject_data email) expires_delta now now_iat
    = Return access
    /\ create_refresh_token self (subject_data email) expires_delta now now_iat
       = Return refresh
    /\ create_email_token self (subject_data email) now now_iat
       = Return verify
    /\ exp_claim access = Some (JInt (timegm xa))
    /\ exp_claim refresh = Some (JInt (timegm xr))
    /\ exp_claim verify = Some (JInt (timegm xv))
    /\ forall t,
         (timegm t <= timegm xa ->
          get_current_user_subject self t access = Return (JStr email))
         /\ (timegm t <= timegm xr ->
             decode_refresh_token self t refresh = Return (JStr email))
         /\ (timegm t <= timegm xv ->
             get_email_from_token self t verify = Return (JStr email))
         /\ (timegm xa < timegm t ->
             Jose.decode access (SECRET_KEY self) [ALGORITHM self] t
             = Raise (JWTError ExpiredSignatureError)
             /\ get_current_user_subject self t access
                = Raise credentials_exception)
         /\ (timegm xr < timegm t ->
             Jose.decode refresh (SECRET_KEY self) [ALGORITHM self] t
             = Raise (JWTError ExpiredSignatureError)
             /\ decode_refresh_token self t refresh
                = Raise (HTTPException HTTP_401_UNAUTHORIZED
                           "Could not validate credentials" []))
         /\ (timegm xv < timegm t ->
             Jose.decode verify (SECRET_KEY self) [ALGORITHM self] t
             = Raise (JWTError ExpiredSignatureError)
             /\ get_email_from_token self t verify
                = Raise (HTTPException HTTP_422_UNPROCESSABLE_ENTITY
                           "Invalid token for email verification" [])).
Proof.
  intros Hs Hxa Hxr Hxv.
  destruct (scoped_claims_lookup email "access_token" now_iat xa)
    as (Hasc & Ha).
  destruct (scoped_claims_lookup email "refresh_token" now_iat xr)
    as (Hrsc & Hr).
  destruct (unscoped_claims_lookup email now_iat xv) as (Hvsc & Hv).
  eexists _, _, _.
  split; [exact (create_access_token_subject _ _ _ _ _ _ Hs Hxa) |].
  split; [exact (create_refresh_token_subject _ _ _ _ _ _ Hs Hxr) |].
  split; [exact (create_email_token_subject _ _ _ _ _ Hs Hxv) |].
  unfold exp_claim. cbn [Jose.get_unverified_claims].
  split; [apply Ha |]. split; [apply Hr |]. split; [apply Hv |].
  intros t. repeat split.
  - intros Hle.
    destruct (live_token self t _ _ _ Hs Ha Hle) as [Hd Hsub].
    rewrite (subject_of_decoded _ _ _ _ Hd). now rewrite Hasc, Hsub.
  - intros Hle.
    destruct (live_token self t _ _ _ Hs Hr Hle) as [Hd Hsub].
    rewrite (refresh_of_decoded _ _ _ _ Hd). now rewrite Hrsc, Hsub.
  - intros Hle.
    destruct (live_token self t _ _ _ Hs Hv Hle) as [Hd Hsub].
    rewrite (email_of_decoded _ _ _ _ Hd). now rewrite Hsub.
  - now apply expired_token with email (timegm xa).
  - unfold get_current_user_subject.
    now rewrite (expired_token self t _ _ _ Hs Ha).
  - now apply expired_token with email (timegm xr).
  - unfold decode_refresh_token.
    now rewrite (expired_token self t _ _ _ Hs Hr).
  - now apply expired_token with email (timegm xv).
  - unfold get_email_from_token.
    now rewrite (expired_token self t _ _ _ Hs Hv).
Qed.

(** C2: an access token is rejected with 401 by [decode_refresh_token] and a
    refresh token is rejected with 401 by [get_current_user], at every
    instant, expired or not, whatever Redis and the database hold. *)
Theorem scope_cross_use_rejected self email expires_delta now now_iat xa xr :
  Jose.supported (ALGORITHM self) = true ->
  expiry (timedelta_minutes 15) expires_delta now = Return xa ->
  expiry (timedelta_days 7) expires_delta now = Return xr ->
  exists access refresh,
    create_access_token self (subject_data email) expires_delta now now_iat
    = Return access
    /\ create_refresh_token self (subject_data email) expires_delta now now_iat
       = Return refresh
    /\ forall t,
         (exists detail,
            decode_refresh_token self t access
            = Raise (HTTPException HTTP_401_UNAUTHORIZED detail []))
         /\ forall w,
              get_current_user self t refresh w
              = (Raise credentials_exception, w).
Proof.
  intros Hs Hxa Hxr.
  destruct (scoped_claims_lookup email "access_token" now_iat xa)
    as (Hasc & Ha).
  destruct (scoped_claims_lookup email "refresh_token" now_iat xr)
    as (Hrsc & Hr).
  eexists _, _.
  split; [exact (create_access_token_subject _ _ _ _ _ _ Hs Hxa) |].
  split; [exact (create_refresh_token_subject _ _ _ _ _ _ Hs Hxr) |].
  intros t. split.
  - destruct (Z_le_gt_dec (timegm t) (timegm xa)) as [Hle | Hgt].
    + eexists.
      destruct (live_token self t _ _ _ Hs Ha Hle) as [Hd _].
      rewrite (refresh_of_decoded _ _ _ _ Hd), Hasc. reflexivity.
    + eexists. unfold decode_refresh_token.
      rewrite (expired_token self t _ _ _ Hs Ha) by lia. reflexivity.
  - intros w. apply get_current_user_no_subject.
    destruct (Z_le_gt_dec (timegm t) (timegm xr)) as [Hle | Hgt].
    + destruct (live_token self t _ _ _ Hs Hr Hle) as [Hd _].
      rewrite (subject_of_decoded _ _ _ _ Hd), Hrsc. reflexivity.
    + unfold get_current_user_subject.
      rewrite (expired_token self t _ _ _ Hs Hr) by lia. reflexivity.
Qed.

(** C1, at the failing input: an unexpired e-mail verification token, which
    carries no [scope] claim, presented as bearer token makes
    [get_current_user] raise [KeyError], which is not the 401 of
    [credentials_exception]; Redis and the database are not touched. *)
Theorem email_token_as_bearer_raises_KeyError self email now now_iat t w :
  Jose.supported (ALGORITHM self) = true ->
  representable (now + timedelta_days 7) ->
  timegm t <= timegm now + 604800 ->
  exists verify,
    create_email_token self (subject_data email) now now_iat = Return verify
    /\ get_current_user self t verify w = (Raise (KeyError "scope"), w)
    /\ KeyError "scope" <> credentials_exception.
Proof.
  intros Hs Hr Hle.
  destruct (unscoped_claims_lookup email now_iat (now + timedelta_days 7))
    as (Hvsc & Hv).
  eexists. split.
  { apply create_email_token_subject; [exact Hs |].
    now apply datetime_add_representable. }
  split; [| discriminate].
  apply get_current_user_no_subject.
  unfold timedelta_days in *.
  rewrite <- timegm_add_seconds in Hle.
  destruct (live_token self t _ _ _ Hs Hv Hle) as [Hd _].
  rewrite (subject_of_decoded _ _ _ _ Hd). now rewrite Hvsc.
Qed.

(** What does hold of C1: every [JWTError] of [jwt.decode], and every token
    whose [scope] claim is present but is not [access_token], ends in the
    one 401 with the [WWW-Authenticate: Bearer] header. *)
Lemma get_current_user_rejects_undecodable self now token k w :
  Jose.decode token (SECRET_KEY self) [ALGORITHM self] now
  = Raise (JWTError k) ->
  get_current_user self now token w = (Raise credentials_exception, w).
Proof.
  intros Hd. apply get_current_user_no_subject.
  now apply subject_of_undecodable with k.
Qed.

Lemma get_current_user_rejects_wrong_scope self now token payload scope w :
  Jose.decode token (SECRET_KEY self) [ALGORITHM self] now = Return payload ->
  payload !! "scope" = Some scope ->
  scope <> JStr "access_token" ->
  get_current_user self now token w = (Raise credentials_exception, w).
Proof.
  intros Hd Hsc Hne. apply get_current_user_no_subject.
  rewrite (subject_of_decoded _ _ _ _ Hd), Hsc.
  now rewrite bool_decide_eq_false_2.
Qed.

(** C5 (amended): when [jwt.decode] raises a [JWTError],
    [get_email_from_token] fails with the 422 and nothing else; when it
    succeeds on a payload that carries [sub], the subject is returned; no
    token makes it fail with a 401. *)
Theorem get_email_from_token_outcomes self now token :
  (forall k,
     Jose.decode token (SECRET_KEY self) [ALGORITHM self] now
     = Raise (JWTError k) ->
     get_email_from_token self now token
     = Raise (HTTPException HTTP_422_UNPROCESSABLE_ENTITY
                "Invalid token for email verification" []))
  /\ (forall payload email,
        Jose.decode token (SECRET_KEY self) [ALGORITHM self] now
        = Return payload ->
        payload !! "sub" = Some email ->
        get_email_from_token self now token = Return email
        /\ Jose.get_unverified_claims token !! "sub" = Some email)
  /\ (forall detail headers,
        get_email_from_token self now token
        <> Raise (HTTPException HTTP_401_UNAUTHORIZED detail headers)).
Proof.
  split; [| split].
  - intros k Hd. unfold get_email_from_token. now rewrite Hd.
  - intros payload email Hd Hsub. split.
    + rewrite (email_of_decoded _ _ _ _ Hd). now rewrite Hsub.
    + destruct (decode_cases token (SECRET_KEY self) [ALGORITHM self] now)
        as [(e & Hd' & _) | (claims & Hd' & Hc & _)]; congruence.
  - intros detail headers.
    destruct (decode_cases token (SECRET_KEY self) [ALGORITHM self] now)
      as [(e & Hd & [-> | [-> | [-> | [k ->]]]]) | (claims & Hd & _)].
    + unfold get_email_from_token. rewrite Hd. cbn. discriminate.
    + unfold get_email_from_token. rewrite Hd. cbn. discriminate.
    + unfold get_email_from_token. rewrite Hd. cbn. discriminate.
    + unfold get_email_from_token. rewrite Hd. cbn. discriminate.
    + rewrite (email_of_decoded _ _ _ _ Hd).
      destruct (claims !! "sub"); discriminate.
Qed.

End codec.

(** C6, counterexample: [expires_delta = 0] is falsy, so the access token
    issued at second 1000 expires at second 1900 (the 15 minute default), not
    at second 1000. *)
Lemma expires_delta_zero_keeps_default :
  ~ expires_delta_overrides auth_service "a@b.c" 0 1000000000 1000000005.
Proof.
  intros (t & Ht & He).
  rewrite (create_access_token_subject auth_service "a@b.c" (Some (NInt 0))
             1000000000 1000000005 1900000000 eq_refl eq_refl) in Ht.
  injection Ht as <-. unfold exp_claim in He. cbn in He.
  destruct (scoped_claims_lookup "a@b.c" "access_token" 1000000005
              1900000000) as (_ & _ & Hexp & _).
  rewrite Hexp in He. discriminate He.
Qed.

Lemma token_lifetimes_witness :
  (exists access,
     create_access_token auth_service (subject_data "a@b.c") None
       1000000000 1000000005 = Return access
     /\ exp_claim access = Some (JInt 1900))
  /\ (exists refresh,
        create_refresh_token auth_service (subject_data "a@b.c")
          (Some (NInt 60)) 1000000000 1000000005 = Return refresh
        /\ exp_claim refresh = Some (JInt 1060))
  /\ create_access_token auth_service (subject_data "a@b.c")
       (Some (NInt 1000000000000)) 1000000000 1000000005
     = Raise OverflowError.
Proof.
  assert (Hnow : representable 1000000000).
  { unfold representable, datetime_min, datetime_max. lia. }
  split; [| split].
  - destruct (token_lifetimes auth_service "a@b.c" None
                1000000000 1000000005 eq_refl Hnow)
      as (_ & Hdef & _).
    destruct (Hdef eq_refl) as [Ha _].
    destruct Ha as (a & Ha & Hexp).
    { unfold representable, datetime_min, datetime_max. vm_compute.
      split; discriminate. }
    exists a. split; [exact Ha | exact Hexp].
  - destruct (token_lifetimes auth_service "a@b.c" (Some (NInt 60))
                1000000000 1000000005 eq_refl Hnow)
      as (_ & _ & Hover & _).
    destruct (Hover 60 eq_refl) as [Hin _]; [lia |].
    destruct Hin as (a & r & _ & Hr & _ & Hexp).
    { unfold representable, datetime_min, datetime_max. vm_compute.
      split; discriminate. }
    exists r. split; [exact Hr | exact Hexp].
  - destruct (token_lifetimes auth_service "a@b.c"
                (Some (NInt 1000000000000)) 1000000000 1000000005
                eq_refl Hnow)
      as (_ & _ & Hover & _).
    destruct (Hover 1000000000000 eq_refl) as [_ Hout]; [lia |].
    apply Hout.
    unfold representable, datetime_min, datetime_max, timedelta_seconds.
    lia.
Defined.

(** C3, counterexample: the access token issued at second 1000 carries
    [exp] = 1900; at the instant 1900.999999 s, when [exp] has elapsed, it is
    still decoded to its subject, because jose compares whole seconds. And
    for a lifetime of 10^12 seconds no token is issued: the expiry instant
    lies after year 9999 and the issuer raises [OverflowError]. *)
Lemma decode_accepts_within_the_exp_second :
  ~ fails_once_exp_elapsed auth_service "a@b.c"
      1000000000 1000000005 1900999999
  /\ ~ issued_for_every_ttl auth_service "a@b.c" 1000000000000
         1000000000 1000000005.
Proof.
  split.
  - intros Hfails.
    destruct (Hfails
                (Jose.Compact "HS256" "secret_key"
                   (scoped_claims "a@b.c" "access_token" 1000000005
                      1900000000))
                1900) as [e He].
    + exact (create_access_token_subject auth_service "a@b.c" None
               1000000000 1000000005 1900000000 eq_refl eq_refl).
    + vm_compute. reflexivity.
    + lia.
    + vm_compute in He. discriminate He.
  - intros (access & Ha). vm_compute in Ha. discriminate Ha.
Qed.

Lemma issue_decode_roundtrip_witness :
  exists access,
    create_access_token auth_service (subject_data "a@b.c") None
      1000000000 1000000005 = Return access
    /\ get_current_user_subject auth_service 1900999999 access
       = Return (JStr "a@b.c")
    /\ Jose.decode access "secret_key" ["HS256"] 1901000000
       = Raise (JWTError ExpiredSignatureError).
Proof.
  destruct (issue_decode_roundtrip auth_service "a@b.c" None
              1000000000 1000000005
              1900000000 605800000000 605800000000
              eq_refl eq_refl eq_refl eq_refl)
    as (a & r & v & Ha & Hr & Hv & Hxa & Hxr & Hxv & Hall).
  exists a. split; [exact Ha |]. split.
  - destruct (Hall 1900999999) as (Hlive & _). apply Hlive.
    vm_compute. discriminate.
  - destruct (Hall 1901000000) as (_ & _ & _ & Hdead & _).
    apply Hdead. vm_compute. reflexivity.
Defined.

Lemma scope_cross_use_rejected_witness :
  exists access refresh,
    create_access_token auth_service (subject_data "a@b.c") None
      1000000000 1000000005 = Return access
    /\ create_refresh_token auth_service (subject_data "a@b.c") None
         1000000000 1000000005 = Return refresh
    /\ (exists detail,
          decode_refresh_token auth_service 1000000010 access
          = Raise (HTTPException 401 detail []))
    /\ get_current_user auth_service 1000000010 refresh
         {| redis := ∅;
            db := {| users := []; users_auth := []; lookups := [] |} |}
       = (Raise credentials_exception,
          {| redis := ∅;
             db := {| users := []; users_auth := []; lookups := [] |} |}).
Proof.
  destruct (scope_cross_use_rejected auth_service "a@b.c" None
              1000000000 1000000005 1900000000 605800000000
              eq_refl eq_refl eq_refl)
    as (a & r & Ha & Hr & Hall).
  exists a, r. split; [exact Ha |]. split; [exact Hr |].
  destruct (Hall 1000000010) as [H1 H2].
  split; [exact H1 | apply H2].
Defined.

Lemma email_token_as_bearer_raises_KeyError_witness :
  exists verify,
    create_email_token auth_service (subject_data "a@b.c")
      1000000000 1000000005 = Return verify
    /\ get_current_user auth_service 1000000010 verify
         {| redis := ∅;
            db := {| users := []; users_auth := []; lookups := [] |} |}
       = (Raise (KeyError "scope"),
          {| redis := ∅;
             db := {| users := []; users_auth := []; lookups := [] |} |}).
Proof.
  destruct (email_token_as_bearer_raises_KeyError auth_service "a@b.c"
              1000000000 1000000005 1000000010
              {| redis := ∅;
                 db := {| users := []; users_auth := []; lookups := [] |} |}
              eq_refl)
    as (v & Hv & Hk & _).
  - unfold representable, datetime_min, datetime_max. vm_compute.
    split; discriminate.
  - vm_compute. discriminate.
  - exists v. split; [exact Hv | exact Hk].
Defined.

(** A signed access-scoped token without [sub] runs into the second
    subscript: the [email is None] test is never reached. *)
Example access_token_without_sub_raises_KeyError :
  get_current_user_subject auth_service 1000000010
    (Jose.Compact "HS256" "secret_key"
       (<["scope" := JStr "access_token"]> {[ "exp" := JInt 1900 ]}))
  = Raise (KeyError "sub").
Proof. vm_compute. reflexivity. Qed.

(** A signed token whose [exp] is JSON [null]: [int(None)] raises a
    [TypeError], which neither jose nor [get_email_from_token] catches. *)
Example get_email_from_token_null_exp :
  get_email_from_token auth_service 1000000010
    (Jose.Compact "HS256" "secret_key"
       (<["exp" := JNull]> {[ "sub" := JStr "a@b.c" ]}))
  = Raise TypeError.
Proof. vm_compute. reflexivity. Qed.

(** C5, counterexample: a token signed with the service key that carries no
    [sub] claim (here the one [create_email_token] issues for an empty
    dictionary) decodes, and the subscript [payload["sub"]] then raises a
    [KeyError] that the handler for [JWTError] does not catch. *)
Lemma get_email_from_token_without_sub :
  exists token,
    create_email_token auth_service ∅ 1000000000 1000000005 = Return token
    /\ get_email_from_token auth_service 1000000010 token
       = Raise (KeyError "sub")
    /\ ~ returns_subject_or_422 auth_service 1000000010 token.
Proof.
  exists (Jose.Compact "HS256" "secret_key"
            (<["exp" := JInt 605800]> {[ "iat" := JInt 1000 ]})).
  assert (Hk : get_email_from_token auth_service 1000000010
                 (Jose.Compact "HS256" "secret_key"
                    (<["exp" := JInt 605800]> {[ "iat" := JInt 1000 ]}))
               = Raise (KeyError "sub")) by (vm_compute; reflexivity).
  split; [vm_compute; reflexivity |].
  split; [exact Hk |].
  intros [(email & He & _) | (detail & headers & He)];
    rewrite Hk in He; discriminate He.
Qed.

Lemma get_email_from_token_outcomes_witness :
  get_email_from_token auth_service 1000000010 (Jose.Opaque "garbage")
  = Raise (HTTPException 422 "Invalid token for email verification" [])
  /\ get_email_from_token auth_service 1000000010
       (Jose.Compact "HS256" "secret_key"
          (unscoped_claims "a@b.c" 1000000005 605800000000))
     = Return (JStr "a@b.c").
Proof.
  split.
  - destruct (get_email_from_token_outcomes auth_service 1000000010
                (Jose.Opaque "garbage")) as (H & _).
    apply (H JWTError_base). reflexivity.
  - destruct (get_email_from_token_outcomes auth_service 1000000010
                (Jose.Compact "HS256" "secret_key"
                   (unscoped_claims "a@b.c" 1000000005 605800000000)))
      as (_ & H & _).
    apply (H (unscoped_claims "a@b.c" 1000000005 605800000000)).
    + vm_compute. reflexivity.
    + vm_compute. reflexivity.
Defined.

(** ** The identity cache *)

Section cache.
Context `{Libraries}.

Lemma set_then_expire (store : gmap string Redis.entry) (key : string)
    (v : Pickle.bytes) (seconds : Z) :
  Redis.expire (Redis.set store key v) key seconds
  = <[key := {| Redis.value := v; Redis.ttl := Some seconds |}]> store.
Proof. unfold Redis.expire, Redis.set. now rewrite alter_insert_eq. Qed.

(** C4: once the access token has decoded to the subject [email], a hit on
    ["user:" + email] returns the unpickled entry and leaves the world as it
    was, so the lookup trace shows no call; on a miss the user is looked up
    once by that e-mail, an absent user gives the 401, and a found user is
    stored under ["user:" + email] with a time to live of 900 seconds and
    returned. *)
Theorem get_current_user_cache self now token payload email w :
  Jose.decode token (SECRET_KEY self) [ALGORITHM self] now = Return payload ->
  payload !! "scope" = Some (JStr "access_token") ->
  payload !! "sub" = Some (JStr email) ->
  match Redis.get (redis w) ("user:" +:+ email) with
  | Some cached =>
      get_current_user self now token w = (Pickle.loads cached, w)
  | None =>
      let looked_up :=
        {| users := users (db w);
           users_auth := users_auth (db w);
           lookups := lookups (db w) ++ [JStr email] |} in
      match fst (get_user_by_email (JStr email) (db w)) with
      | None =>
          get_current_user self now token w
          = (Raise credentials_exception,
             {| redis := redis w; db := looked_up |})
      | Some user =>
          get_current_user self now token w
          = (Return user,
             {| redis :=
                  <["user:" +:+ email :=
                      {| Redis.value := Pickle.dumps user;
                         Redis.ttl := Some 900 |}]> (redis w);
                db := looked_up |})
      end
  end.
Proof.
  intros Hd Hsc Hsub.
  assert (Hs : get_current_user_subject self now token = Return (JStr email)).
  { rewrite (subject_of_decoded _ _ _ _ Hd), Hsc, Hsub. reflexivity. }
  unfold get_current_user, mbind, lift, r_get. rewrite Hs. simpl py_str.
  destruct w as [store session]. simpl.
  destruct (Redis.get store ("user:" +:+ email)) as [cached |] eqn:Hget.
  - reflexivity.
  - unfold get_user_by_email_M, get_user_by_email. simpl.
    destruct (head (filter (fun u => JStr (UserAuth.email u) = JStr email)
                      (users_auth session))) as [user |].
    + unfold r_set, r_expire, mret. simpl.
      now rewrite set_then_expire.
    + reflexivity.
Qed.

End cache.

Lemma get_current_user_cache_witness :
  get_current_user auth_service 1000000010 alice_access_token
    {| redis := ∅;
       db := {| users := []; users_auth := [alice]; lookups := [] |} |}
  = (Return alice,
     {| redis :=
          {[ "user:a@b.c" :=
               {| Redis.value := Pickle.Pickled alice;
                  Redis.ttl := Some 900 |} ]};
        db := {| users := [];
                 users_auth := [alice];
                 lookups := [JStr "a@b.c"] |} |}).
Proof.
  pose proof (get_current_user_cache auth_service 1000000010
                alice_access_token
                (scoped_claims "a@b.c" "access_token" 1000000005 1900000000)
                "a@b.c"
                {| redis := ∅;
                   db := {| users := [];
                            users_auth := [alice];
                            lookups := [] |} |}) as H.
  simpl in H. apply H.
  - vm_compute. reflexivity.
  - vm_compute. reflexivity.
  - vm_compute. reflexivity.
Defined.

(** ** The credential hasher *)

Section hasher.
Context `{Libraries}.


End hasher.



(** ** The contacts repository *)

(** C8: on 28 January 2024 the seven-day range of the birthday route ends on
    4 February; Bob's birthday on 30 January lies inside it, yet the test
    [30 <= 4] on the days drops him from the result. *)
Theorem get_birthday_misses_month_rollover :
  exists (today end_date : date) (user : User.t),
    date_add_days today 7 = Return end_date
    /\ month end_date <> month today
    /\ birthday_within today end_date (User.birthday_date user) = true
    /\ (user ∉ get_birthday today end_date (session_of [user]))
    /\ read_birthdays today (session_of [user]) = Return [].
Proof.
  exists {| year := 2024; month := 1; day := 28 |},
    {| year := 2024; month := 2; day := 4 |}, bob.
  vm_compute. repeat split; try discriminate.
  intros H. inversion H.
Qed.

Lemma foldl_append_flat_map {A B} (g : A -> list B) (l : list A)
    (acc : list B) :
  foldl (fun result x => result ++ g x) acc l = acc ++ flat_map g l.
Proof.
  revert acc. induction l as [| x l IH]; intros acc; simpl.
  - now rewrite app_nil_r.
  - rewrite IH. now rewrite app_assoc.
Qed.

Lemma foldl_same_step {A B} (f g : B -> A -> B) (l : list A) (acc : B) :
  (forall b a, f b a = g b a) -> foldl f acc l = foldl g acc l.
Proof.
  intros Hfg. revert acc.
  induction l as [| x l IH]; intros acc; simpl; [reflexivity |].
  now rewrite Hfg, IH.
Qed.

Lemma search_users_flat_map first_name last_name email db :
  search_users first_name last_name email db
  = flat_map (appended first_name last_name email) (users db).
Proof.
  unfold search_users.
  rewrite (foldl_same_step _
             (fun result x =>
                result ++ appended first_name last_name email x)).
  - exact (foldl_append_flat_map _ _ []).
  - intros result user. unfold appended.
    destruct first_name as [f |], last_name as [l |], email as [e |];
      repeat case_bool_decide; simpl;
      rewrite <- ?app_assoc, ?app_nil_r; simpl;
      solve [reflexivity | congruence].
Qed.

Lemma count_occ_optional (b : bool) (user u : User.t) :
  count_occ User_eq_dec (if b then [user] else []) u
  = if decide (user = u) then length (if b then [user] else []) else 0%nat.
Proof.
  destruct b, (decide (user = u)) as [Heq | Hne]; cbn [length].
  - now rewrite count_occ_cons_eq.
  - now rewrite count_occ_cons_neq.
  - reflexivity.
  - reflexivity.
Qed.

Lemma count_occ_appended first_name last_name email user u :
  count_occ User_eq_dec (appended first_name last_name email user) u
  = if decide (user = u)
    then criteria_matched first_name last_name email user
    else 0%nat.
Proof.
  unfold criteria_matched, appended.
  rewrite !count_occ_app, !count_occ_optional, !length_app.
  destruct (decide (user = u)); reflexivity.
Qed.

(** C9: in the result of [search_users] a row occurs once per given
    criterion it matches (times the number of its copies in the table); a
    row matching all three given criteria occurs three times. *)
Theorem search_users_repeats_matches first_name last_name email db user :
  count_occ User_eq_dec (search_users first_name last_name email db) user
  = (criteria_matched first_name last_name email user
     * count_occ User_eq_dec (users db) user)%nat
  /\ search_users (Some (User.first_name user)) (Some (User.last_name user))
       (Some (User.email user)) (session_of [user])
     = [user; user; user].
Proof.
  split.
  - rewrite search_users_flat_map.
    induction (users db) as [| row rows IH]; cbn [flat_map].
    + cbn [count_occ]. lia.
    + rewrite count_occ_app, IH, count_occ_appended.
      destruct (decide (row = user)) as [-> | Hne].
      * rewrite count_occ_cons_eq by reflexivity. lia.
      * rewrite count_occ_cons_neq by exact Hne. lia.
  - rewrite search_users_flat_map. cbn [session_of users flat_map].
    unfold appended.
    rewrite !bool_decide_eq_true_2 by reflexivity. reflexivity.
Qed.

Lemma list_find_head_filter {A} (P : A -> Prop) `{forall x, Decision (P x)}
    (l : list A) :
  snd <$> list_find P l = head (filter P l).
Proof.
  induction l as [| x l IH]; [reflexivity |].
  cbn [list_find]. rewrite filter_cons.
  destruct (decide (P x)); [reflexivity |].
  rewrite <- IH. destruct (list_find P l) as [[i y] |]; reflexivity.
Qed.

(** C10: when a row with the given id exists, [update_user] returns that
    row with [first_name], [last_name], [phone_numbers], [email] and
    [other_description] taken from the body and with its [id] and
    [birthday_date] as they were; the row keeps its place in the table, and
    every other row, the other table and the lookup trace are unchanged. *)
Theorem update_user_keeps_birthday user_id body db user :
  get_user user_id db = Some user ->
  exists (i : nat) (updated : User.t) (db' : Session),
    update_user user_id body db = (Some updated, db')
    /\ users db !! i = Some user
    /\ users db' = <[i := updated]> (users db)
    /\ User.birthday_date updated = User.birthday_date user
    /\ User.id updated = User.id user
    /\ User.first_name updated = UserSchema.first_name body
    /\ User.last_name updated = UserSchema.last_name body
    /\ User.phone_numbers updated = UserSchema.phone_numbers body
    /\ User.email updated = UserSchema.email body
    /\ User.other_description updated = UserSchema.other_description body
    /\ map User.birthday_date (users db')
       = map User.birthday_date (users db)
    /\ (forall j, j <> i -> users db' !! j = users db !! j)
    /\ users_auth db' = users_auth db
    /\ lookups db' = lookups db.
Proof.
  intros Hget. unfold get_user in Hget.
  rewrite <- list_find_head_filter in Hget.
  unfold update_user.
  destruct (list_find (fun u => User.id u = user_id) (users db))
    as [[i found] |] eqn:Hfind; [| discriminate Hget].
  simpl in Hget. injection Hget as ->.
  apply list_find_Some in Hfind as (Hi & Hid & _).
  eexists i, _, _. split; [reflexivity |]. cbn.
  repeat split; try assumption.
  - apply list_eq. intros j. rewrite !list_lookup_fmap.
    destruct (decide (j = i)) as [-> | Hne].
    + rewrite list_lookup_insert_eq by (apply lookup_lt_Some with user; exact Hi).
      now rewrite Hi.
    + now rewrite list_lookup_insert_ne by congruence.
  - intros j Hne. now rewrite list_lookup_insert_ne by congruence.
Qed.

Lemma update_user_keeps_birthday_witness :
  exists updated db',
    update_user 7 bob_update (session_of [bob]) = (Some updated, db')
    /\ User.birthday_date updated = {| year := 1990; month := 1; day := 30 |}
    /\ User.first_name updated = "Robert".
Proof.
  destruct (update_user_keeps_birthday 7 bob_update (session_of [bob]) bob
              eq_refl)
    as (i & updated & db' & Hu & _ & _ & Hb & _ & Hf & _).
  exists updated, db'. split; [exact Hu |]. split; [exact Hb | exact Hf].
Defined.

(** Without a row of that id nothing is changed and [None] is returned. *)
Lemma update_user_missing user_id body db :
  get_user user_id db = None -> update_user user_id body db = (None, db).
Proof.
  intros Hget. unfold get_user in Hget.
  rewrite <- list_find_head_filter in Hget. unfold update_user.
  destruct (list_find (fun u => User.id u = user_id) (users db))
    as [[i found] |]; [discriminate Hget | reflexivity].
Qed.

(** * Further properties *)

(** ** Lookups by predicate *)

Lemma head_filter_None {A} (P : A -> Prop) `{forall x, Decision (P x)}
    (l : list A) :
  head (filter P l) = None <-> forall x, x ∈ l -> ~ P x.
Proof.
  rewrite <- list_find_head_filter, fmap_None, list_find_None, Forall_forall.
  reflexivity.
Qed.

Lemma head_filter_Some {A} (P : A -> Prop) `{forall x, Decision (P x)}
    (l : list A) (x : A) :
  head (filter P l) = Some x -> x ∈ l /\ P x.
Proof.
  rewrite <- list_find_head_filter.
  destruct (list_find P l) as [[i y] |] eqn:Hf; [| discriminate].
  simpl. intros [= ->]. apply list_find_Some in Hf as (Hi & HP & _).
  split; [now apply list_elem_of_lookup_2 with i | exact HP].
Qed.

Lemma head_filter_agree {A} (P : A -> Prop) `{forall x, Decision (P x)}
    (l l' : list A) :
  Forall2 (fun x y => P x \/ P y -> x = y) l l' ->
  head (filter P l) = head (filter P l').
Proof.
  induction 1 as [| x y l l' Hxy _ IH]; [reflexivity |].
  rewrite !filter_cons.
  destruct (decide (P x)) as [Hx | Hx], (decide (P y)) as [Hy | Hy].
  - simpl. f_equal. apply Hxy. now left.
  - destruct Hy. rewrite <- Hxy; [exact Hx | now left].
  - destruct Hx. rewrite Hxy; [exact Hy | now right].
  - exact IH.
Qed.

Lemma head_filter_app {A} (P : A -> Prop) `{forall x, Decision (P x)}
    (l k : list A) :
  head (filter P (l ++ k))
  = match head (filter P l) with
    | Some x => Some x
    | None => head (filter P k)
    end.
Proof.
  rewrite filter_app. destruct (filter P l); reflexivity.
Qed.

(** ** The contacts table *)

(** X1: pages of [get_users] are consecutive slices of the table: a page of
    [n] rows followed by the page of [m] rows that starts where it ends is
    the page of [n + m] rows; a page holds at most [limit] rows and is empty
    once [skip] is past the end. *)
Theorem get_users_pages skip n m db :
  0 <= skip -> 0 <= n -> 0 <= m ->
  get_users skip n db ++ get_users (skip + n) m db = get_users skip (n + m) db
  /\ Z.of_nat (length (get_users skip n db)) <= n
  /\ (Z.of_nat (length (users db)) <= skip -> get_users skip n db = [])
  /\ (Z.of_nat (length (users db)) <= n -> get_users 0 n db = users db).
Proof.
  intros Hs Hn Hm. unfold get_users. repeat split.
  - rewrite !Z2Nat.inj_add by lia.
    rewrite <- drop_drop. apply take_take_drop.
  - rewrite length_take. lia.
  - intros Hlen. rewrite drop_ge by lia. now destruct (Z.to_nat n).
  - intros Hlen. change (Z.to_nat 0) with 0%nat. rewrite drop_0.
    apply take_ge. lia.
Qed.

Lemma get_users_pages_witness :
  get_users 0 1 (session_of [bob; bob]) ++ get_users 1 1 (session_of [bob; bob])
  = get_users 0 2 (session_of [bob; bob]).
Proof.
  destruct (get_users_pages 0 1 1 (session_of [bob; bob])) as (H & _);
    [lia | lia | lia | exact H].
Defined.

(** X2: a row created under a primary key no row carries yet is what
    [get_user] returns for that key afterwards; it is the row with that key
    and the six fields of the body, [birthday_date] included; the rows found
    under other keys are the same as before, and the keys stay distinct. *)
Theorem create_users_then_get body new_id db :
  (forall row, row ∈ users db -> User.id row <> new_id) ->
  (create_users body new_id db).1
  = {| User.id := new_id;
       User.first_name := UserSchema.first_name body;
       User.last_name := UserSchema.last_name body;
       User.birthday_date := UserSchema.birthday_date body;
       User.email := UserSchema.email body;
       User.phone_numbers := UserSchema.phone_numbers body;
       User.other_description := UserSchema.other_description body |}
  /\ get_user new_id (create_users body new_id db).2
     = Some (create_users body new_id db).1
  /\ (forall user_id, user_id <> new_id ->
      get_user user_id (create_users body new_id db).2 = get_user user_id db)
  /\ (unique_ids db -> unique_ids (create_users body new_id db).2).
Proof.
  intros Hfresh. unfold get_user, create_users. cbn [fst snd users].
  split; [reflexivity |]. repeat split.
  - rewrite head_filter_app.
    rewrite (proj2 (head_filter_None _ (users db))) by exact Hfresh.
    rewrite filter_cons. cbn [User.id].
    destruct (decide (new_id = new_id)); [reflexivity | contradiction].
  - intros user_id Hne. rewrite head_filter_app.
    destruct (head (filter _ (users db))); [reflexivity |].
    rewrite filter_cons. cbn [User.id].
    destruct (decide (new_id = user_id)); [congruence | reflexivity].
  - unfold unique_ids. cbn [users]. intros Hu.
    rewrite fmap_app. apply NoDup_app. split; [exact Hu |]. split.
    + intros x Hx. cbn. rewrite list_elem_of_singleton. intros ->.
      apply list_elem_of_fmap in Hx as (row & Hid & Hrow).
      now apply (Hfresh row Hrow).
    + apply NoDup_singleton.
Qed.

Lemma create_users_then_get_witness :
  get_user 8 (create_users bob_update 8 (session_of [bob])).2
  = Some {| User.id := 8;
            User.first_name := "Robert";
            User.last_name := "Stone";
            User.birthday_date := {| year := 2001; month := 12; day := 31 |};
            User.email := "robert@example.com";
            User.phone_numbers := "555-0199";
            User.other_description := "renamed" |}.
Proof.
  destruct (create_users_then_get bob_update 8 (session_of [bob]))
    as (Hrow & Hget & _).
  - intros row Hrow. apply list_elem_of_singleton in Hrow as ->.
    vm_compute. discriminate.
  - rewrite Hget, Hrow. reflexivity.
Defined.

Lemma get_user_found user_id db user :
  get_user user_id db = Some user ->
  exists i,
    list_find (fun u => User.id u = user_id) (users db) = Some (i, user).
Proof.
  unfold get_user. rewrite <- list_find_head_filter.
  destruct (list_find _ (users db)) as [[i found] |]; [| discriminate].
  simpl. intros [= ->]. now exists i.
Qed.

Lemma head_filter_insert_found {A} (P : A -> Prop)
    `{forall x, Decision (P x)} (l : list A) (i : nat) (x y : A) :
  list_find P l = Some (i, x) -> P y ->
  head (filter P (<[i := y]> l)) = Some y.
Proof.
  intros (Hi & _ & Hbefore)%list_find_Some Hy.
  rewrite insert_take_drop by (now apply lookup_lt_Some with x).
  rewrite head_filter_app.
  rewrite (proj2 (head_filter_None P (take i l))).
  - rewrite filter_cons. now destruct (decide (P y)).
  - intros z (j & Hj)%list_elem_of_lookup_1.
    apply lookup_take_Some in Hj as [Hj Hlt]. now apply (Hbefore j).
Qed.

Lemma head_filter_insert_other {A} (Q : A -> Prop)
    `{forall x, Decision (Q x)} (l : list A) (i : nat) (x y : A) :
  l !! i = Some x -> ~ Q x -> ~ Q y ->
  head (filter Q (<[i := y]> l)) = head (filter Q l).
Proof.
  intros Hi Hx Hy. symmetry. apply head_filter_agree.
  rewrite <- (list_insert_id l i x Hi) at 1.
  apply Forall2_insert; [| tauto].
  apply Forall_Forall2_diag, Forall_forall. auto.
Qed.

Lemma filter_delete_other {A} (Q : A -> Prop)
    `{forall x, Decision (Q x)} (l : list A) (i : nat) (x : A) :
  l !! i = Some x -> ~ Q x -> filter Q (delete i l) = filter Q l.
Proof.
  intros Hi Hx.
  transitivity (filter Q (take i l ++ x :: drop (S i) l));
    [| now rewrite take_drop_middle].
  rewrite delete_take_drop, !filter_app, filter_cons.
  now destruct (decide (Q x)).
Qed.

Lemma head_filter_delete_found {A} (P : A -> Prop)
    `{forall x, Decision (P x)} (l : list A) (i : nat) (x : A) :
  l !! i = Some x ->
  (forall j y, l !! j = Some y -> P y -> j = i) ->
  head (filter P (delete i l)) = None.
Proof.
  intros Hi Honly. apply head_filter_None.
  intros z (j & Hj)%list_elem_of_lookup_1 Hz.
  destruct (decide (j < i)%nat) as [Hlt | Hge].
  - rewrite list_lookup_delete_lt in Hj by exact Hlt.
    specialize (Honly j z Hj Hz). lia.
  - rewrite list_lookup_delete_ge in Hj by lia.
    specialize (Honly (S j) z Hj Hz). lia.
Qed.

Lemma unique_ids_only user_id db i user :
  unique_ids db ->
  users db !! i = Some user -> User.id user = user_id ->
  forall j y, users db !! j = Some y -> User.id y = user_id -> j = i.
Proof.
  intros Hu Hi Hid j y Hj Hy.
  apply (NoDup_lookup _ j i user_id Hu); rewrite list_lookup_fmap.
  - now rewrite Hj, <- Hy.
  - now rewrite Hi, <- Hid.
Qed.

(** X3: when a row with the id exists, the update route returns that row
    with [first_name], [last_name], [phone_numbers], [email] and
    [other_description] taken from the body and [id] and [birthday_date]
    kept; a read of the same id afterwards returns this row, reads of other
    ids return what they returned before, and the table holds the same
    primary keys as before. *)
Theorem update_then_read body user_id db user :
  get_user user_id db = Some user ->
  let updated := {|
    User.id := User.id user;
    User.first_name := UserSchema.first_name body;
    User.last_name := UserSchema.last_name body;
    User.birthday_date := User.birthday_date user;
    User.email := UserSchema.email body;
    User.phone_numbers := UserSchema.phone_numbers body;
    User.other_description := UserSchema.other_description body |} in
  (routes.update_user body user_id db).1 = Return updated
  /\ routes.read_user user_id (routes.update_user body user_id db).2
     = Return updated
  /\ (forall other, other <> user_id ->
      routes.read_user other (routes.update_user body user_id db).2
      = routes.read_user other db)
  /\ User.id <$> users (routes.update_user body user_id db).2
     ≡ₚ User.id <$> users db.
Proof.
  intros (i & Hfind)%get_user_found updated.
  pose proof Hfind as (Hi & Hid & _)%list_find_Some.
  unfold routes.update_user, update_user. rewrite Hfind. cbn [fst snd].
  fold updated.
  split; [reflexivity |].
  unfold routes.read_user, get_user. cbn [users].
  split; [| split].
  - now rewrite (head_filter_insert_found _ _ _ _ _ Hfind).
  - intros other Hne.
    rewrite (head_filter_insert_other _ _ _ _ _ Hi); [reflexivity | |];
      cbn [User.id updated]; congruence.
  - rewrite list_fmap_insert. cbn [User.id updated].
    rewrite list_insert_id; [reflexivity |].
    now rewrite list_lookup_fmap, Hi.
Qed.

Lemma update_then_read_witness :
  routes.read_user 7 (routes.update_user bob_update 7 (session_of [bob])).2
  = Return {| User.id := 7;
              User.first_name := "Robert";
              User.last_name := "Stone";
              User.birthday_date := {| year := 1990; month := 1; day := 30 |};
              User.email := "robert@example.com";
              User.phone_numbers := "555-0199";
              User.other_description := "renamed" |}.
Proof.
  destruct (update_then_read bob_update 7 (session_of [bob]) bob eq_refl)
    as (_ & Hr & _).
  exact Hr.
Defined.

(** X4: [update_user] is idempotent: applying the same body to the same id
    a second time returns the same row and leaves the session as the first
    application left it. *)
Theorem update_user_idempotent user_id body db user :
  get_user user_id db = Some user ->
  update_user user_id body (update_user user_id body db).2
  = update_user user_id body db.
Proof.
  intros (i & Hfind)%get_user_found.
  pose proof Hfind as (Hi & Hid & Hbefore)%list_find_Some.
  unfold update_user at 2 3. rewrite Hfind. cbn [snd].
  set (updated := User.mk _ _ _ _ _ _ _).
  assert (Hfind' : list_find (fun u => User.id u = user_id)
                     (<[i := updated]> (users db)) = Some (i, updated)).
  { apply list_find_Some. split; [| split].
    - apply list_lookup_insert_eq. now apply lookup_lt_Some with user.
    - exact Hid.
    - intros j y Hj Hlt.
      rewrite list_lookup_insert_ne in Hj by lia. now apply (Hbefore j). }
  unfold update_user. cbn [users users_auth lookups]. rewrite Hfind'.
  now rewrite list_insert_insert_eq.
Qed.

Lemma update_user_idempotent_witness :
  update_user 7 bob_update (update_user 7 bob_update (session_of [bob])).2
  = update_user 7 bob_update (session_of [bob]).
Proof.
  exact (update_user_idempotent 7 bob_update (session_of [bob]) bob eq_refl).
Defined.

(** X5: with distinct primary keys, the delete route returns the row it
    removed, a read of that id afterwards gives the 404, reads of other ids
    return what they returned before, the table is one row shorter and its
    keys are still distinct. *)
Theorem remove_then_read user_id db user :
  unique_ids db ->
  get_user user_id db = Some user ->
  (routes.remove_user user_id db).1 = Return user
  /\ routes.read_user user_id (routes.remove_user user_id db).2
     = Raise (HTTPException HTTP_404_NOT_FOUND "User not found" [])
  /\ (forall other, other <> user_id ->
      routes.read_user other (routes.remove_user user_id db).2
      = routes.read_user other db)
  /\ S (length (users (routes.remove_user user_id db).2))
     = length (users db)
  /\ unique_ids (routes.remove_user user_id db).2.
Proof.
  intros Hu (i & Hfind)%get_user_found.
  pose proof Hfind as (Hi & Hid & _)%list_find_Some.
  unfold routes.remove_user, remove_user. rewrite Hfind. cbn [fst snd].
  split; [reflexivity |].
  unfold routes.read_user, get_user, unique_ids. cbn [users].
  split; [| split; [| split]].
  - rewrite (head_filter_delete_found _ _ _ _ Hi); [reflexivity |].
    now apply unique_ids_only with user.
  - intros other Hne.
    rewrite (filter_delete_other _ _ _ _ Hi); [reflexivity | congruence].
  - rewrite length_delete by eauto.
    apply lookup_lt_Some in Hi. lia.
  - rewrite list_fmap_delete.
    apply (sublist_NoDup _ (User.id <$> users db));
      [exact Hu | apply sublist_delete].
Qed.

Lemma remove_then_read_witness :
  (routes.remove_user 7 (session_of [bob])).1 = Return bob
  /\ routes.read_user 7 (routes.remove_user 7 (session_of [bob])).2
     = Raise (HTTPException 404 "User not found" []).
Proof.
  assert (Hu : unique_ids (session_of [bob])).
  { unfold unique_ids. cbn. apply NoDup_singleton. }
  destruct (remove_then_read 7 (session_of [bob]) bob Hu eq_refl)
    as (H1 & H2 & _).
  split; [exact H1 | exact H2].
Defined.

(** X6: when no row carries the id, the read, update and delete routes all
    fail with the 404 "User not found" and the session is left exactly as it
    was. *)
Theorem routes_missing_id body user_id db :
  (forall row, row ∈ users db -> User.id row <> user_id) ->
  routes.read_user user_id db
  = Raise (HTTPException HTTP_404_NOT_FOUND "User not found" [])
  /\ routes.update_user body user_id db
     = (Raise (HTTPException HTTP_404_NOT_FOUND "User not found" []), db)
  /\ routes.remove_user user_id db
     = (Raise (HTTPException HTTP_404_NOT_FOUND "User not found" []), db).
Proof.
  intros Hnone.
  assert (Hfind : list_find (fun u => User.id u = user_id) (users db) = None).
  { apply list_find_None, Forall_forall. exact Hnone. }
  unfold routes.read_user, routes.update_user, routes.remove_user,
    get_user, update_user, remove_user.
  rewrite Hfind, (proj2 (head_filter_None _ (users db))) by exact Hnone.
  repeat split.
Qed.

Lemma routes_missing_id_witness :
  routes.update_user bob_update 9 (session_of [bob])
  = (Raise (HTTPException 404 "User not found" []), session_of [bob]).
Proof.
  apply (routes_missing_id bob_update 9 (session_of [bob])).
  intros row Hrow. apply list_elem_of_singleton in Hrow as ->.
  vm_compute. discriminate.
Defined.

(** ** Birthdays and search *)

Lemma foldl_select {A} (c : A -> bool) (l : list A) :
  foldl (fun result x => if c x then result ++ [x] else result) [] l
  = filter (fun x => c x = true) l.
Proof.
  rewrite (foldl_same_step _
             (fun result x => result ++ (if c x then [x] else []))).
  - rewrite (foldl_append_flat_map _ _ []). cbn [app].
    induction l as [| x l IH]; [reflexivity |].
    cbn [flat_map]. rewrite filter_cons, IH.
    destruct (c x); [| reflexivity].
    destruct (decide (true = true)); [reflexivity | contradiction].
  - intros result x. destruct (c x); [reflexivity |].
    now rewrite app_nil_r.
Qed.

Lemma filter_none {A} (P : A -> Prop) `{forall x, Decision (P x)}
    (l : list A) :
  (forall x, x ∈ l -> ~ P x) -> filter P l = [].
Proof.
  intros Hnone. induction l as [| x l IH]; [reflexivity |].
  rewrite filter_cons.
  destruct (decide (P x)) as [Hx | _].
  - destruct (Hnone x); [apply list_elem_of_here | exact Hx].
  - apply IH. intros y Hy. apply Hnone. now apply list_elem_of_further.
Qed.

(** X7: when [today] and [end_date] lie in the same month of the same year,
    [get_birthday] returns, in table order, exactly the rows whose birthday
    falls between the two dates when the year of birth is ignored. *)
Theorem get_birthday_same_month today end_date db :
  year today = year end_date ->
  month today = month end_date ->
  get_birthday today end_date db
  = filter
      (fun user =>
         birthday_within today end_date (User.birthday_date user) = true)
      (users db).
Proof.
  intros Hy Hm. unfold get_birthday.
  rewrite (foldl_select
             (fun user =>
                (month (User.birthday_date user) >=? month today)
                && (day (User.birthday_date user) >=? day today)
                && (month (User.birthday_date user) <=? month end_date)
                && (day (User.birthday_date user) <=? day end_date))).
  apply list_filter_iff. intros user.
  unfold birthday_within, date_leb. cbn [existsb year month day].
  rewrite <- Hy, <- Hm.
  rewrite !orb_true_iff, !andb_true_iff, !orb_true_iff, !andb_true_iff,
    !Z.geb_le, !Z.leb_le, !Z.ltb_lt, !Z.eqb_eq.
  lia.
Qed.

Lemma get_birthday_same_month_witness :
  get_birthday {| year := 2024; month := 1; day := 28 |}
    {| year := 2024; month := 1; day := 31 |} (session_of [bob])
  = [bob].
Proof.
  rewrite (get_birthday_same_month
             {| year := 2024; month := 1; day := 28 |}
             {| year := 2024; month := 1; day := 31 |} (session_of [bob])
             eq_refl eq_refl).
  reflexivity.
Defined.

Lemma days_in_month_bounds (y m : Z) : 28 <= days_in_month y m <= 31.
Proof.
  unfold days_in_month.
  destruct (m =? 2); [destruct (is_leap y); lia |].
  destruct (bool_decide _); lia.
Qed.

Lemma iter_next_day_within (d : date) (k : nat) :
  day d + Z.of_nat k <= days_in_month (year d) (month d) ->
  Nat.iter k next_day d
  = {| year := year d; month := month d; day := day d + Z.of_nat k |}.
Proof.
  induction k as [| k IH]; intros Hle.
  - destruct d as [y m dd]. cbn. f_equal. lia.
  - rewrite Nat.iter_succ, IH by lia.
    unfold next_day. cbn [year month day].
    destruct (Z.ltb_spec (day d + Z.of_nat k)
                (days_in_month (year d) (month d))); [| lia].
    f_equal. lia.
Qed.

Lemma date_add_days_unfold d n :
  date_add_days d n
  = if year (Nat.iter n next_day d) <=? MAXYEAR
    then Return (Nat.iter n next_day d) else Raise OverflowError.
Proof. reflexivity. Qed.

(** Seven days on, the date is either in the same month or, once the month
    has rolled over, on an earlier day of the month than [d]; the year moves
    on only from December. *)
Lemma week_later (d : date) :
  1 <= month d <= 12 ->
  1 <= day d <= days_in_month (year d) (month d) ->
  (Nat.iter 7 next_day d
   = {| year := year d; month := month d; day := day d + 7 |}
   /\ day d + 7 <= days_in_month (year d) (month d))
  \/ (days_in_month (year d) (month d) < day d + 7
      /\ month (Nat.iter 7 next_day d) <> month d
      /\ day (Nat.iter 7 next_day d) < day d
      /\ year (Nat.iter 7 next_day d)
         = if month d <? 12 then year d else year d + 1).
Proof.
  intros [Hm1 Hm12] [Hd1 Hdn].
  pose proof (days_in_month_bounds (year d) (month d)) as Hdim.
  destruct (Z_le_gt_dec (day d + 7) (days_in_month (year d) (month d)))
    as [Hin | Hout].
  - left. split; [| exact Hin]. now apply (iter_next_day_within d 7).
  - right. split; [lia |].
    set (r := Z.to_nat (days_in_month (year d) (month d) - day d)).
    assert (Hr : (r <= 6)%nat) by lia.
    replace 7%nat with ((6 - r) + (1 + r))%nat by lia.
    rewrite Nat.iter_add, Nat.iter_add.
    rewrite (iter_next_day_within d r) by lia.
    change (Nat.iter 1 next_day ?x) with (next_day x).
    set (last := {| year := year d; month := month d;
                    day := day d + Z.of_nat r |}).
    assert (Hnext : exists m',
               next_day last
               = {| year := if month d <? 12 then year d else year d + 1;
                    month := m'; day := 1 |}
               /\ m' <> month d).
    { unfold next_day, last. cbn [year month day].
      destruct (Z.ltb_spec (day d + Z.of_nat r)
                  (days_in_month (year d) (month d))); [lia |].
      destruct (Z.ltb_spec (month d) 12);
        eexists; (split; [reflexivity | lia]). }
    destruct Hnext as (m' & -> & Hm').
    set (y' := if month d <? 12 then year d else year d + 1).
    pose proof (days_in_month_bounds y' m') as Hdim'.
    rewrite iter_next_day_within by (cbn [year month day]; lia).
    cbn [year month day]. repeat split; [exact Hm' | lia].
Qed.

(** X8: on every calendar day whose seven-day window ends in another month
    the birthday route returns the empty list, whatever the table holds,
    unless the window leaves year 9999, which is the case from 25 December
    9999 on: there the route raises [OverflowError]. *)
Theorem read_birthdays_empty_across_months today db :
  valid_date today ->
  (forall end_date,
     date_add_days today 7 = Return end_date ->
     month end_date <> month today ->
     read_birthdays today db = Return [])
  /\ (year today = MAXYEAR -> month today = 12 -> 25 <= day today ->
      read_birthdays today db = Raise OverflowError).
Proof.
  intros (Hy & Hm & Hd). split.
  - intros end_date Hadd Hcross.
    unfold read_birthdays. rewrite Hadd. cbn [rbind]. f_equal.
    rewrite date_add_days_unfold in Hadd.
    destruct (year (Nat.iter 7 next_day today) <=? MAXYEAR);
      [| discriminate Hadd].
    assert (Hend : end_date = Nat.iter 7 next_day today) by congruence.
    clear Hadd.
    destruct (week_later today Hm Hd) as [[Heq _] | (_ & _ & Hday & _)].
    { rewrite Hend, Heq in Hcross. now destruct Hcross. }
    rewrite <- Hend in Hday. clear Hend.
    unfold get_birthday.
    rewrite (foldl_select
               (fun user =>
                  (month (User.birthday_date user) >=? month today)
                  && (day (User.birthday_date user) >=? day today)
                  && (month (User.birthday_date user) <=? month end_date)
                  && (day (User.birthday_date user) <=? day end_date))).
    apply filter_none. intros user _.
    rewrite !andb_true_iff, !Z.geb_le, !Z.leb_le. lia.
  - intros Hy' Hm' Hd'.
    unfold read_birthdays. rewrite date_add_days_unfold.
    destruct (week_later today Hm Hd) as [[_ Hin] | (_ & _ & _ & Hyear)].
    { rewrite Hy', Hm' in Hin. change (days_in_month MAXYEAR 12) with 31 in Hin.
      lia. }
    rewrite Hyear, Hm', Hy'. reflexivity.
Qed.

Lemma read_birthdays_empty_across_months_witness :
  read_birthdays {| year := 2023; month := 12; day := 27 |}
    (session_of [bob]) = Return []
  /\ read_birthdays {| year := 9999; month := 12; day := 27 |}
       (session_of [bob]) = Raise OverflowError.
Proof.
  split.
  - apply (read_birthdays_empty_across_months
             {| year := 2023; month := 12; day := 27 |} (session_of [bob]))
      with {| year := 2024; month := 1; day := 3 |}.
    + unfold valid_date. vm_compute. repeat split; discriminate.
    + reflexivity.
    + vm_compute. discriminate.
  - apply (read_birthdays_empty_across_months
             {| year := 9999; month := 12; day := 27 |} (session_of [bob])).
    + unfold valid_date. vm_compute. repeat split; discriminate.
    + reflexivity.
    + reflexivity.
    + vm_compute. discriminate.
Defined.

Lemma elem_of_appended first_name last_name email row user :
  user ∈ appended first_name last_name email row
  <-> user = row /\ matches_some first_name last_name email row.
Proof.
  unfold appended, matches_some.
  rewrite !elem_of_app.
  repeat case_bool_decide;
    rewrite ?list_elem_of_singleton, ?elem_of_nil; tauto.
Qed.

(** X9: a row is in the result of [search_users] exactly when it is in the
    table and one of the given criteria equals its column; with no criterion
    given the result is empty, whatever the table holds. *)
Theorem search_users_membership first_name last_name email db user :
  (user ∈ search_users first_name last_name email db
   <-> user ∈ users db /\ matches_some first_name last_name email user)
  /\ search_users None None None db = [].
Proof.
  split.
  - rewrite search_users_flat_map, list_elem_of_In, in_flat_map.
    split.
    + intros (row & Hrow & Hin).
      apply list_elem_of_In, elem_of_appended in Hin as [-> Hm].
      split; [now apply list_elem_of_In | exact Hm].
    + intros [Hin Hm]. exists user.
      split; [now apply list_elem_of_In |].
      now apply list_elem_of_In, elem_of_appended.
  - rewrite search_users_flat_map.
    induction (users db) as [| row rows IH]; [reflexivity |].
    cbn [flat_map]. rewrite IH. reflexivity.
Qed.


(** ** Principals: confirmation, avatar and the identity cache *)

Lemma head_filter_fmap {A} (P : A -> Prop) `{forall x, Decision (P x)}
    (f : A -> A) (l : list A) :
  (forall x, P (f x) <-> P x) ->
  head (filter P (f <$> l)) = f <$> head (filter P l).
Proof.
  intros Hf. induction l as [| x l IH]; [reflexivity |].
  rewrite fmap_cons, !filter_cons.
  destruct (decide (P (f x))) as [Hfx | Hfx], (decide (P x)) as [Hx | Hx];
    try reflexivity; try exact IH.
  - destruct Hx. now apply Hf.
  - destruct Hfx. now apply Hf.
Qed.

Lemma commit_user_auth_lookup (change : UserAuth.t -> UserAuth.t)
    (email : json) (user : UserAuth.t) (db : Session) :
  (forall row, UserAuth.email (change row) = UserAuth.email row) ->
  (get_user_by_email email db).1 = Some user ->
  head (filter (fun u => JStr (UserAuth.email u) = email)
          (commit_user_auth change user (users_auth db)))
  = Some (change user).
Proof.
  intros Hemail Hfound. unfold get_user_by_email in Hfound.
  cbn [fst] in Hfound. unfold commit_user_auth.
  rewrite head_filter_fmap.
  - rewrite Hfound. cbn.
    now rewrite bool_decide_eq_true_2.
  - intros row. case_bool_decide; [| reflexivity].
    now rewrite Hemail.
Qed.

Lemma commit_user_auth_frame (change : UserAuth.t -> UserAuth.t)
    (user : UserAuth.t) (rows : list UserAuth.t) :
  (forall row, change (change row) = change row) ->
  change <$> commit_user_auth change user rows = change <$> rows.
Proof.
  intros Hidem. unfold commit_user_auth.
  rewrite <- list_fmap_compose. apply list_fmap_ext.
  intros i row _. cbn. case_bool_decide; [apply Hidem | reflexivity].
Qed.

Lemma commit_user_auth_other (change : UserAuth.t -> UserAuth.t)
    (user : UserAuth.t) (rows : list UserAuth.t) (i : nat)
    (row : UserAuth.t) :
  rows !! i = Some row ->
  UserAuth.id row <> UserAuth.id user ->
  commit_user_auth change user rows !! i = Some row.
Proof.
  intros Hi Hne. unfold commit_user_auth.
  rewrite list_lookup_fmap, Hi. cbn.
  now rewrite bool_decide_eq_false_2.
Qed.

(** X10: [confirmed_email] for an e-mail the table knows marks that user
    confirmed: the lookup by the same e-mail afterwards returns the user with
    [confirmed] true; rows under another primary key are untouched, no row
    changes in any field but [confirmed], and the contacts table is left
    alone. For an unknown e-mail it raises [AttributeError] and changes no
    table. *)
Theorem confirmed_email_marks_user email db :
  match (get_user_by_email email db).1 with
  | Some user =>
      (confirmed_email email db).1 = Done tt
      /\ (get_user_by_email email (confirmed_email email db).2).1
         = Some (set_confirmed user)
      /\ (forall i row,
            users_auth db !! i = Some row ->
            UserAuth.id row <> UserAuth.id user ->
            users_auth (confirmed_email email db).2 !! i = Some row)
      /\ set_confirmed <$> users_auth (confirmed_email email db).2
         = set_confirmed <$> users_auth db
      /\ users (confirmed_email email db).2 = users db
  | None =>
      (confirmed_email email db).1 = AttributeError "confirmed"
      /\ users_auth (confirmed_email email db).2 = users_auth db
      /\ users (confirmed_email email db).2 = users db
  end.
Proof.
  destruct (get_user_by_email email db).1 as [user |] eqn:Hfound.
  - unfold confirmed_email.
    unfold get_user_by_email in *. cbn [fst] in Hfound.
    rewrite Hfound. cbn [fst snd users users_auth lookups].
    split; [reflexivity |]. split; [| split; [| split]].
    + apply (commit_user_auth_lookup set_confirmed email user db);
        [reflexivity | exact Hfound].
    + intros i row Hi Hne. now apply commit_user_auth_other.
    + now apply commit_user_auth_frame.
    + reflexivity.
  - unfold confirmed_email.
    unfold get_user_by_email in *. cbn [fst] in Hfound.
    rewrite Hfound. repeat split.
Qed.

Lemma update_avatar_found email url db user :
  (get_user_by_email email db).1 = Some user ->
  update_avatar email url db
  = (Done (set_avatar url user),
     {| users := users db;
        users_auth := commit_user_auth (set_avatar url) user (users_auth db);
        lookups := lookups db ++ [email] |}).
Proof.
  unfold update_avatar, get_user_by_email. cbn [fst]. now intros ->.
Qed.

Lemma user_key_inj (a b : string) : "user:" +:+ a = "user:" +:+ b -> a = b.
Proof. intros H. injection H as H. exact H. Qed.

Lemma confirmed_email_marks_user_witness :
  (get_user_by_email (JStr "a@b.c")
     (confirmed_email (JStr "a@b.c") (db alice_world)).2).1
  = Some (set_confirmed alice).
Proof.
  pose proof (confirmed_email_marks_user (JStr "a@b.c") (db alice_world))
    as H.
  change ((get_user_by_email (JStr "a@b.c") (db alice_world)).1)
    with (Some alice) in H.
  destruct H as (_ & H & _). exact H.
Defined.

Section principals.
Context `{Libraries}.

(** X11: [update_avatar] for a known e-mail returns the user with the new
    avatar URL and the lookup by that e-mail afterwards returns the same; no
    row changes in any field but [avatar]. A warm identity cache does not
    see the change: with that user cached under ["user:" + email],
    [get_current_user] run on the updated database still returns the cached
    row and makes no lookup. *)
Theorem update_avatar_and_stale_cache self now token email url w user cached :
  (get_user_by_email (JStr email) (db w)).1 = Some user ->
  get_current_user_subject self now token = Return (JStr email) ->
  Redis.get (redis w) ("user:" +:+ email) = Some (Pickle.Pickled cached) ->
  let db' := (update_avatar (JStr email) url (db w)).2 in
  (update_avatar (JStr email) url (db w)).1 = Done (set_avatar url user)
  /\ (get_user_by_email (JStr email) db').1 = Some (set_avatar url user)
  /\ set_avatar url <$> users_auth db' = set_avatar url <$> users_auth (db w)
  /\ get_current_user self now token {| redis := redis w; db := db' |}
     = (Return cached, {| redis := redis w; db := db' |}).
Proof.
  intros Hfound Hsub Hhit db'. subst db'.
  rewrite (update_avatar_found _ url _ _ Hfound).
  cbn [fst snd].
  split; [reflexivity |]. split; [| split].
  - unfold get_user_by_email. cbn [fst users_auth].
    apply (commit_user_auth_lookup (set_avatar url) (JStr email) user (db w));
      [reflexivity | exact Hfound].
  - cbn [users_auth]. now apply commit_user_auth_frame.
  - unfold get_current_user, mbind, lift, r_get. rewrite Hsub.
    cbn [py_str redis]. rewrite Hhit. reflexivity.
Qed.

Lemma get_current_user_hit self now token email w cached :
  get_current_user_subject self now token = Return (JStr email) ->
  Redis.get (redis w) ("user:" +:+ email) = Some cached ->
  get_current_user self now token w = (Pickle.loads cached, w).
Proof.
  intros Hsub Hhit. unfold get_current_user, mbind, lift, r_get.
  rewrite Hsub. cbn [py_str]. now rewrite Hhit.
Qed.

Lemma get_current_user_miss self now token email w :
  get_current_user_subject self now token = Return (JStr email) ->
  Redis.get (redis w) ("user:" +:+ email) = None ->
  get_current_user self now token w
  = match (get_user_by_email (JStr email) (db w)).1 with
    | None =>
        (Raise credentials_exception,
         {| redis := redis w;
            db := (get_user_by_email (JStr email) (db w)).2 |})
    | Some user =>
        (Return user,
         {| redis :=
              <["user:" +:+ email :=
                  {| Redis.value := Pickle.Pickled user;
                     Redis.ttl := Some 900 |}]> (redis w);
            db := (get_user_by_email (JStr email) (db w)).2 |})
    end.
Proof.
  intros Hsub Hmiss. unfold get_current_user, mbind, lift, r_get.
  rewrite Hsub. cbn [py_str]. rewrite Hmiss.
  unfold get_user_by_email_M, get_user_by_email. cbn [fst snd].
  destruct (head (filter _ (users_auth (db w)))) as [user |];
    [| reflexivity].
  unfold r_set, r_expire, mret. cbn [redis db].
  now rewrite set_then_expire.
Qed.

Lemma subject_is_string self now token v :
  get_current_user_subject self now token = Return v ->
  exists email, v = JStr email.
Proof.
  intros Hsub.
  destruct (decode_cases token (SECRET_KEY self) [ALGORITHM self] now)
    as [(e & Hd & He) | (claims & Hd & _ & Hvalid)].
  - unfold get_current_user_subject in Hsub. rewrite Hd in Hsub.
    destruct He as [-> | [-> | [-> | [k ->]]]]; discriminate Hsub.
  - rewrite (subject_of_decoded _ _ _ _ Hd) in Hsub.
    destruct (claims !! "scope") as [scope |]; [| discriminate].
    destruct (bool_decide (scope = JStr "access_token")); [| discriminate].
    unfold Jose.validate_sub in Hvalid.
    destruct (claims !! "sub") as [[| b | z | email | text] |];
      try discriminate.
    exists email. cbn in Hsub. now injection Hsub as <-.
Qed.

(** X12: after a cache miss that found the user, the entry lives 900
    seconds. A second [get_current_user] made [seconds] later with the token
    still valid returns the same user from the cache, changes nothing and
    makes no lookup, when [seconds] is at most 900; past 900 seconds the
    entry is gone, the call looks the user up again and stores a fresh
    entry for 900 seconds. *)
Theorem get_current_user_second_call_cached
    self now seconds token email w user :
  0 <= seconds ->
  get_current_user_subject self now token = Return (JStr email) ->
  get_current_user_subject self (now + timedelta_seconds seconds) token
  = Return (JStr email) ->
  Redis.get (redis w) ("user:" +:+ email) = None ->
  (get_user_by_email (JStr email) (db w)).1 = Some user ->
  let w1 := (get_current_user self now token w).2 in
  let second :=
    get_current_user self (now + timedelta_seconds seconds) token
      (later seconds w1) in
  (get_current_user self now token w).1 = Return user
  /\ redis w1 !! ("user:" +:+ email)
     = Some {| Redis.value := Pickle.Pickled user; Redis.ttl := Some 900 |}
  /\ lookups (db w1) = lookups (db w) ++ [JStr email]
  /\ (seconds <= 900 -> second = (Return user, later seconds w1))
  /\ (900 < seconds ->
      second.1 = Return user
      /\ Redis.get (redis (later seconds w1)) ("user:" +:+ email) = None
      /\ redis second.2 !! ("user:" +:+ email)
         = Some {| Redis.value := Pickle.Pickled user;
                   Redis.ttl := Some 900 |}
      /\ lookups (db second.2) = lookups (db w) ++ [JStr email; JStr email]).
Proof.
  intros Hpos Hs1 Hs2 Hmiss Hfound w1 second. subst second w1.
  rewrite (get_current_user_miss _ _ _ _ _ Hs1 Hmiss), Hfound.
  cbn [fst snd redis db].
  split; [reflexivity |].
  split; [now rewrite lookup_insert_eq |].
  split; [reflexivity |].
  assert (Hlater : forall store,
             Redis.get
               (Redis.elapse seconds
                  (<["user:" +:+ email :=
                       {| Redis.value := Pickle.Pickled user;
                          Redis.ttl := Some 900 |}]> store))
               ("user:" +:+ email)
             = if seconds <=? 900 then Some (Pickle.Pickled user) else None).
  { intros store. unfold Redis.get, Redis.elapse.
    rewrite lookup_omap, lookup_insert_eq. cbn.
    now destruct (seconds <=? 900). }
  split.
  - intros Hle.
    apply (get_current_user_hit _ _ _ _ _ (Pickle.Pickled user) Hs2).
    unfold later. cbn [redis]. rewrite Hlater.
    destruct (Z.leb_spec seconds 900); [reflexivity | lia].
  - intros Hgt.
    set (w2 := later seconds _).
    assert (Hgone : Redis.get (redis w2) ("user:" +:+ email) = None).
    { subst w2. unfold later. cbn [redis]. rewrite Hlater.
      destruct (Z.leb_spec seconds 900); [lia | reflexivity]. }
    assert (Hagain :
              (get_user_by_email (JStr email) (db w2)).1 = Some user)
      by exact Hfound.
    rewrite (get_current_user_miss _ _ _ _ _ Hs2 Hgone), Hagain.
    cbn [fst snd redis db].
    split; [reflexivity |]. split; [exact Hgone |].
    split; [now rewrite lookup_insert_eq |].
    subst w2. unfold later, get_user_by_email. cbn [snd lookups db].
    now rewrite <- app_assoc.
Qed.

(** X13: [get_current_user] keeps the identity cache keyed by e-mail: if
    every entry is the pickle of a user stored under that user's e-mail,
    this still holds afterwards. Under that invariant the user it returns
    carries the subject of the token as e-mail. In no case does it change a
    row of either table. *)
Theorem get_current_user_keeps_cache_keyed self now token w :
  keyed_by_email (redis w) ->
  keyed_by_email (redis (get_current_user self now token w).2)
  /\ users (db (get_current_user self now token w).2) = users (db w)
  /\ users_auth (db (get_current_user self now token w).2)
     = users_auth (db w)
  /\ (forall user,
        (get_current_user self now token w).1 = Return user ->
        get_current_user_subject self now token
        = Return (JStr (UserAuth.email user))).
Proof.
  intros Hinv.
  destruct (get_current_user_subject self now token) as [v | e] eqn:Hsub.
  2: { rewrite (get_current_user_no_subject _ _ _ _ _ Hsub).
       cbn [fst snd]. repeat split; [exact Hinv | discriminate]. }
  destruct (subject_is_string _ _ _ _ Hsub) as [email ->].
  destruct (Redis.get (redis w) ("user:" +:+ email)) as [cached |] eqn:Hget.
  - rewrite (get_current_user_hit _ _ _ _ _ _ Hsub Hget). cbn [fst snd].
    repeat split; [exact Hinv |].
    intros user Hloads. unfold Redis.get in Hget.
    destruct (redis w !! ("user:" +:+ email)) as [entry |] eqn:Hentry;
      [| discriminate].
    cbn in Hget. injection Hget as <-.
    destruct (Hinv _ _ Hentry) as (owner & Hval & Hkey).
    rewrite Hval in Hloads. cbn in Hloads. injection Hloads as ->.
    now rewrite (user_key_inj _ _ Hkey).
  - rewrite (get_current_user_miss _ _ _ _ _ Hsub Hget).
    destruct (get_user_by_email (JStr email) (db w)).1 as [user |] eqn:Hfound;
      cbn [fst snd redis db]; unfold get_user_by_email; cbn [snd users users_auth].
    + assert (Hemail : UserAuth.email user = email).
      { unfold get_user_by_email in Hfound. cbn [fst] in Hfound.
        apply head_filter_Some in Hfound as [_ Heq]. now injection Heq. }
      repeat split.
      * intros key entry Hentry.
        destruct (decide ("user:" +:+ email = key)) as [<- | Hne].
        -- rewrite lookup_insert_eq in Hentry. injection Hentry as <-.
           exists user. now rewrite Hemail.
        -- rewrite lookup_insert_ne in Hentry by exact Hne.
           now apply Hinv.
      * intros user' [= <-]. now rewrite Hemail.
    + repeat split; [exact Hinv | discriminate].
Qed.

End principals.

Lemma update_avatar_and_stale_cache_witness :
  (get_user_by_email (JStr "a@b.c")
     (update_avatar (JStr "a@b.c") "http://img" (db alice_world)).2).1
  = Some (set_avatar "http://img" alice)
  /\ (get_current_user auth_service 1000000010 alice_access_token
        {| redis := redis alice_world;
           db := (update_avatar (JStr "a@b.c") "http://img"
                    (db alice_world)).2 |}).1
     = Return alice.
Proof.
  destruct (update_avatar_and_stale_cache auth_service 1000000010
              alice_access_token "a@b.c" "http://img" alice_world
              alice alice)
    as (_ & H1 & _ & H2).
  - reflexivity.
  - vm_compute. reflexivity.
  - vm_compute. reflexivity.
  - split; [exact H1 | now rewrite H2].
Defined.

Lemma get_current_user_second_call_cached_witness :
  let w := {| redis := ∅; db := db alice_world |} in
  get_current_user auth_service 1000000020 alice_access_token
    (later 10 (get_current_user auth_service 1000000010 alice_access_token w).2)
  = (Return alice,
     later 10
       (get_current_user auth_service 1000000010 alice_access_token w).2).
Proof.
  intros w.
  destruct (get_current_user_second_call_cached auth_service
              1000000010 10 alice_access_token "a@b.c" w alice)
    as (_ & _ & _ & H & _).
  - lia.
  - vm_compute. reflexivity.
  - vm_compute. reflexivity.
  - reflexivity.
  - reflexivity.
  - apply H. lia.
Defined.

Lemma get_current_user_keeps_cache_keyed_witness :
  keyed_by_email
    (redis (get_current_user auth_service 1000000010 alice_access_token
              alice_world).2).
Proof.
  apply (get_current_user_keeps_cache_keyed auth_service 1000000010
           alice_access_token alice_world).
  intros key entry Hentry. cbn [redis alice_world] in Hentry.
  apply lookup_singleton_Some in Hentry as [<- <-].
  exists alice. split; reflexivity.
Defined.

(** ** Tokens used elsewhere *)





Section elsewhere.
Context `{Libraries}.

(** X15: [get_email_from_token] applies no scope filter: an access token and
    a refresh token issued for [email] are both redeemed by it to [email]
    for as long as they have not expired. *)
Theorem get_email_from_token_ignores_scope
    self email expires_delta now now_iat xa xr :
  Jose.supported (ALGORITHM self) = true ->
  expiry (timedelta_minutes 15) expires_delta now = Return xa ->
  expiry (timedelta_days 7) expires_delta now = Return xr ->
  exists access refresh,
    create_access_token self (subject_data email) expires_delta now now_iat
    = Return access
    /\ create_refresh_token self (subject_data email) expires_delta now now_iat
       = Return refresh
    /\ forall t,
         (timegm t <= timegm xa ->
          get_email_from_token self t access = Return (JStr email))
         /\ (timegm t <= timegm xr ->
             get_email_from_token self t refresh = Return (JStr email)).
Proof.
  intros Hs Hxa Hxr.
  destruct (scoped_claims_lookup email "access_token" now_iat xa)
    as (_ & Ha).
  destruct (scoped_claims_lookup email "refresh_token" now_iat xr)
    as (_ & Hr).
  eexists _, _.
  split; [exact (create_access_token_subject _ _ _ _ _ _ Hs Hxa) |].
  split; [exact (create_refresh_token_subject _ _ _ _ _ _ Hs Hxr) |].
  intros t. split; intros Hle.
  - destruct (live_token self t _ _ _ Hs Ha Hle) as [Hd Hsub].
    now rewrite (email_of_decoded _ _ _ _ Hd), Hsub.
  - destruct (live_token self t _ _ _ Hs Hr Hle) as [Hd Hsub].
    now rewrite (email_of_decoded _ _ _ _ Hd), Hsub.
Qed.

(** X16: an unexpired e-mail verification token handed to
    [decode_refresh_token] is not answered with a 401: it decodes, and the
    subscript [payload['scope']] raises [KeyError]. *)
Theorem email_token_as_refresh_raises_KeyError self email now now_iat t :
  Jose.supported (ALGORITHM self) = true ->
  representable (now + timedelta_days 7) ->
  timegm t <= timegm now + 604800 ->
  exists verify,
    create_email_token self (subject_data email) now now_iat = Return verify
    /\ decode_refresh_token self t verify = Raise (KeyError "scope").
Proof.
  intros Hs Hrep Hle.
  destruct (unscoped_claims_lookup email now_iat (now + timedelta_days 7))
    as (Hvsc & Hv).
  eexists.
  split; [exact (create_email_token_subject _ _ _ _ _ Hs
                   (datetime_add_representable _ _ Hrep)) |].
  unfold timedelta_days in *.
  rewrite <- timegm_add_seconds in Hle.
  destruct (live_token self t _ _ _ Hs Hv Hle) as [Hd _].
  now rewrite (refresh_of_decoded _ _ _ _ Hd), Hvsc.
Qed.


End elsewhere.

Lemma get_email_from_token_ignores_scope_witness :
  get_email_from_token auth_service 1000000010 alice_access_token
  = Return (JStr "a@b.c").
Proof.
  destruct (get_email_from_token_ignores_scope auth_service "a@b.c" None
              1000000000 1000000005 1900000000 605800000000
              eq_refl eq_refl eq_refl)
    as (a & r & Ha & _ & Hall).
  rewrite (create_access_token_subject auth_service "a@b.c" None
             1000000000 1000000005 1900000000 eq_refl eq_refl) in Ha.
  injection Ha as <-.
  destruct (Hall 1000000010) as [Hlive _].
  apply Hlive. vm_compute. discriminate.
Defined.

Lemma email_token_as_refresh_raises_KeyError_witness :
  exists verify,
    create_email_token auth_service (subject_data "a@b.c")
      1000000000 1000000005 = Return verify
    /\ decode_refresh_token auth_service 1000000010 verify
       = Raise (KeyError "scope").
Proof.
  apply (email_token_as_refresh_raises_KeyError auth_service "a@b.c"
           1000000000 1000000005 1000000010 eq_refl).
  - unfold representable. vm_compute. split; discriminate.
  - vm_compute. discriminate.
Defined.


(** ** Runs of updates *)

Lemma update_user_keeps_columns user_id body db :
  (fun u => (User.id u, User.birthday_date u))
    <$> users (update_user user_id body db).2
  = (fun u => (User.id u, User.birthday_date u)) <$> users db.
Proof.
  unfold update_user.
  destruct (list_find _ (users db)) as [[i user] |] eqn:Hfind;
    [| reflexivity].
  apply list_find_Some in Hfind as (Hi & _ & _).
  cbn [snd users]. rewrite list_fmap_insert.
  cbn [User.birthday_date User.id].
  apply list_insert_id. now rewrite list_lookup_fmap, Hi.
Qed.

(** X18: no run of update requests, whatever ids and bodies it names,
    changes which pairs of primary key and birthday the table holds, or the
    number of rows: the rows after the run carry the pairs the rows before
    it carried, each as often, in whatever order the rows come. *)
Theorem updates_never_touch_birthdays requests db :
  (fun u => (User.id u, User.birthday_date u))
    <$> users (apply_updates requests db)
  ≡ₚ (fun u => (User.id u, User.birthday_date u)) <$> users db
  /\ length (users (apply_updates requests db)) = length (users db).
Proof.
  assert (Hcols : (fun u => (User.id u, User.birthday_date u))
                    <$> users (apply_updates requests db)
                  = (fun u => (User.id u, User.birthday_date u))
                      <$> users db).
  { unfold apply_updates. revert db.
    induction requests as [| [user_id body] requests IH]; intros db;
      [reflexivity |].
    cbn [foldl fst snd].
    rewrite (IH (update_user user_id body db).2).
    apply update_user_keeps_columns. }
  split; [now rewrite Hcols |].
  rewrite <- (length_fmap (fun u => (User.id u, User.birthday_date u))), Hcols.
  apply length_fmap.
Qed.
